(** * The workflow engine of tlsbot: src/tls_visa_bot.py

    A shallow embedding of the status ledger ([update_account_status]), the
    pacing primitives, the login-form retry loops, the calendar monitor, the
    workflow variants and [close], followed by the properties of the
    specification checked against them.

    Conventions of the embedding.

    - The bot object and its surroundings are one [World] value that every
      operation threads through: the attributes of [TLSVisaBot], the number of
      clock reads and random draws made so far, and the [trace] of effects
      performed on the outside (driver calls, sleeps, log lines, file writes).
    - The page-automation driver, the clock and the random generator are
      oracles ([Env]): the outcome of a driver call is a function of the call
      and of how many times that same call was issued before.
    - Python exceptions are values ([PyExn]); an operation yields [Ret v],
      [Raise e], or [Diverge] when a [while] loop is cut by its fuel.
    - Writing the ledger file and the alert log is an event of the trace; the
      file system is taken to accept every write.
    - The source file defines several functions more than once; each embedded
      definition names the lines it is taken from, and a suffix [_L<line>]
      keeps the variants apart. A call [self.f(...)] is resolved to the last
      definition of [f] in the file, the one a class body holding all of them
      would keep. *)

From stdpp Require Import gmap strings list pretty.

Open Scope string_scope.

(** ** Python values, exceptions and outcomes *)

(** The values that cross the driver interface or sit in [current_account]. *)
Inductive PyVal :=
| VNone
| VBool (b : bool)
| VInt (z : Z)
| VStr (s : string)
| VElem (h : nat)
| VElems (hs : list nat).

(** Python truthiness, as used by [if challenge:], [if not calendar:],
    [if not available_dates:]. *)
Definition truthy (v : PyVal) : bool :=
  match v with
  | VNone => false
  | VBool b => b
  | VInt z => negb (z =? 0)%Z
  | VStr s => negb (String.eqb s EmptyString)
  | VElem _ => true
  | VElems hs => match hs with [] => false | _ => true end
  end.

(** An exception: its class and [str(e)]. *)
Record PyExn := mkExn { exn_class : string; exn_msg : string }.

Definition Exception (msg : string) : PyExn := mkExn "Exception" msg.
Definition NameError (name : string) : PyExn :=
  mkExn "NameError" ("name '" ++ name ++ "' is not defined").
Definition AttributeError (msg : string) : PyExn := mkExn "AttributeError" msg.
Definition KeyError (key : string) : PyExn := mkExn "KeyError" ("'" ++ key ++ "'").
Definition TypeError (msg : string) : PyExn := mkExn "TypeError" msg.

Inductive Outcome (A : Type) :=
| Ret (a : A)
| Raise (e : PyExn)
| Diverge.
Arguments Ret {A} a.
Arguments Raise {A} e.
Arguments Diverge {A}.

(** ** The status taxonomy: class AccountStatus, lines 48-61 *)

Module AccountStatus.
Definition INIT := "INITIALIZING".
Definition LOGIN_FAILED := "LOGIN FAILED".
Definition LOGGED_IN := "LOGGED IN".
Definition BOOKING := "BOOKING".
Definition BOOKED := "BOOKED".
Definition FAILED := "FAILED".
Definition CLOUDFLARE := "CLOUDFLARE BLOCKED".
Definition BOOKING_FAILED := "BOOKING FAILED".
Definition CALENDAR_ERROR := "CALENDAR ERROR".
Definition SESSION_EXPIRED := "SESSION EXPIRED".
Definition NETWORK_ERROR := "NETWORK ERROR".
Definition MAINTENANCE := "SITE MAINTENANCE".

(** The attributes the class body binds; [AccountStatus.X] for any other
    [X] is an AttributeError. *)
Definition attributes : list (string * string) :=
  [ ("INIT", INIT); ("LOGIN_FAILED", LOGIN_FAILED); ("LOGGED_IN", LOGGED_IN);
    ("BOOKING", BOOKING); ("BOOKED", BOOKED); ("FAILED", FAILED);
    ("CLOUDFLARE", CLOUDFLARE); ("BOOKING_FAILED", BOOKING_FAILED);
    ("CALENDAR_ERROR", CALENDAR_ERROR); ("SESSION_EXPIRED", SESSION_EXPIRED);
    ("NETWORK_ERROR", NETWORK_ERROR); ("MAINTENANCE", MAINTENANCE) ].

Fixpoint assoc (name : string) (l : list (string * string)) : option string :=
  match l with
  | [] => None
  | (k, v) :: l' => if String.eqb k name then Some v else assoc name l'
  end.

Definition getattr (name : string) : option string := assoc name attributes.
End AccountStatus.

(** ** Ledger records *)

(** One entry of [account["history"]] (lines 121-127). *)
Record HistoryEntry := mkEntry {
  timestamp : string;
  h_status : string;
  details : string;
  step : string;
  attempt : nat
}.

(** One value of [self.account_history] (lines 99-106). *)
Record AccountRecord := mkRecord {
  status : string;
  history : list HistoryEntry;
  last_updated : string;
  total_attempts : nat;
  last_error : option string;
  success : bool
}.

(** ** The driver interface and the trace of effects *)

(** Calls on [self.page] / [self.browser] and on element handles. *)
Inductive Call :=
| Goto (url : string)
| Click (selector : string)
| Fill (selector text : string)
| Type_ (selector char : string)
| WaitForSelector (selector : string) (state : option string) (timeout : Z)
| WaitForLoadState (state : string)
| Reload
| QuerySelector (selector : string)
| QuerySelectorAll (selector : string)
| ElemQuerySelectorAll (h : nat) (selector : string)
| ElemClick (h : nat)
| ElemTextContent (h : nat)
| SelectOption (selector value : string)
| Evaluate (script : string)
| MouseMove (x y : Z)
| PlaywrightStart
| LaunchPersistentContext (user_agent : string) (width height : Z)
| ContextBrowser (ctx : nat)
| NewPage (ctx : nat)
| SetExtraHTTPHeaders
| AddInitScript (label : string)
| BrowserClose (h : nat).

Global Instance Call_eq_dec : EqDecision Call.
Proof. solve_decision. Defined.

Inductive Event :=
| EvCall (c : Call)
| EvSleep (lo hi : Z)
| EvLog (level msg : string)
| EvWriteHistory (snapshot : gmap string AccountRecord)
| EvAlert (issue_type text : string) (account : option string) (stamp : string).

(** How many times [c] was issued in a trace. *)
Fixpoint calls_of (c : Call) (tr : list Event) : nat :=
  match tr with
  | [] => 0
  | EvCall c' :: tr' => (if decide (c' = c) then 1 else 0) + calls_of c tr'
  | _ :: tr' => calls_of c tr'
  end.

Definition is_alert (ev : Event) : bool :=
  match ev with EvAlert _ _ _ _ => true | _ => false end.

Definition is_goto (ev : Event) : bool :=
  match ev with EvCall (Goto _) => true | _ => false end.

(** Notifications emitted, and page navigations started, in a trace. *)
Definition alerts (tr : list Event) : list Event := List.filter is_alert tr.
Definition gotos (tr : list Event) : list Event := List.filter is_goto tr.

(** ** The world: the bot instance and its surroundings *)

(** [TLSVisaBot.__init__] (lines 66-88) sets the first six fields; the last
    three count clock reads and random draws and collect the effects.
    [current_step] is a natural number: the source only ever assigns it the
    literals 0 to 8. *)
Record World := mkWorld {
  browser : option nat;
  page : option nat;
  current_account : option (gmap string PyVal);
  logged_in : bool;
  current_step : nat;
  account_history : gmap string AccountRecord;
  clock : nat;
  draws : nat;
  trace : list Event
}.

(** [self.steps], lines 74-86. *)
Definition steps : list string :=
  [ "Initialize Bot"; "Bypass Cloudflare"; "Authentication via OAuth";
    "Login Verification"; "Country Selection"; "City Selection";
    "Book Detail Page"; "Personal Info Page"; "Calendar Page";
    "Confirmation Page"; "Payment Verification" ].

(** The state [__init__] leaves behind. *)
Definition init_world : World :=
  mkWorld None None None false 0 ∅ 0 0 [].

Definition set_browser (b : option nat) (w : World) : World :=
  mkWorld b (page w) (current_account w) (logged_in w) (current_step w)
          (account_history w) (clock w) (draws w) (trace w).
Definition set_page (p : option nat) (w : World) : World :=
  mkWorld (browser w) p (current_account w) (logged_in w) (current_step w)
          (account_history w) (clock w) (draws w) (trace w).
Definition set_current_account (a : option (gmap string PyVal)) (w : World) : World :=
  mkWorld (browser w) (page w) a (logged_in w) (current_step w)
          (account_history w) (clock w) (draws w) (trace w).
Definition set_logged_in (b : bool) (w : World) : World :=
  mkWorld (browser w) (page w) (current_account w) b (current_step w)
          (account_history w) (clock w) (draws w) (trace w).
Definition set_current_step (n : nat) (w : World) : World :=
  mkWorld (browser w) (page w) (current_account w) (logged_in w) n
          (account_history w) (clock w) (draws w) (trace w).
Definition set_account_history (h : gmap string AccountRecord) (w : World) : World :=
  mkWorld (browser w) (page w) (current_account w) (logged_in w) (current_step w)
          h (clock w) (draws w) (trace w).
Definition set_clock (n : nat) (w : World) : World :=
  mkWorld (browser w) (page w) (current_account w) (logged_in w) (current_step w)
          (account_history w) n (draws w) (trace w).
Definition set_draws (n : nat) (w : World) : World :=
  mkWorld (browser w) (page w) (current_account w) (logged_in w) (current_step w)
          (account_history w) (clock w) n (trace w).
Definition emit (evs : list Event) (w : World) : World :=
  mkWorld (browser w) (page w) (current_account w) (logged_in w) (current_step w)
          (account_history w) (clock w) (draws w) (trace w ++ evs).

(** ** The monad of bot operations *)

Definition M (A : Type) : Type := World -> Outcome A * World.

Definition ret {A} (a : A) : M A := fun w => (Ret a, w).
Definition raise {A} (e : PyExn) : M A := fun w => (Raise e, w).
Definition bind {A B} (m : M A) (k : A -> M B) : M B :=
  fun w =>
    match m w with
    | (Ret a, w1) => k a w1
    | (Raise e, w1) => (Raise e, w1)
    | (Diverge, w1) => (Diverge, w1)
    end.

Notation "x <- m ;; k" := (bind m (fun x => k))
  (at level 100, m at next level, right associativity).
Notation "m ;; k" := (bind m (fun _ => k))
  (at level 100, right associativity).

(** [try: body / except Exception as e: handler e]. *)
Definition try_except {A} (body : M A) (handler : PyExn -> M A) : M A :=
  fun w =>
    match body w with
    | (Raise e, w1) => handler e w1
    | r => r
    end.

(** [try: body / finally: fin], for a [fin] without [return]: [fin] runs on
    every exit; what it raises replaces the pending outcome. *)
Definition try_finally {A} (body : M A) (fin : M unit) : M A :=
  fun w =>
    match body w with
    | (Diverge, w1) => (Diverge, w1)
    | (r, w1) =>
        match fin w1 with
        | (Ret _, w2) => (r, w2)
        | (Raise e, w2) => (Raise e, w2)
        | (Diverge, w2) => (Diverge, w2)
        end
    end.

Definition get {A} (f : World -> A) : M A := fun w => (Ret (f w), w).
Definition modify (f : World -> World) : M unit := fun w => (Ret tt, f w).

(** ** The oracles and the configuration *)

Inductive Reply :=
| Ok (v : PyVal)
| Err (e : PyExn).

(** [now k] is the k-th reading of [datetime.now()] as [.isoformat()] renders
    it, [now_fmt f k] the same reading rendered by [.strftime(f)]; [rand k] is
    the k-th draw of the [random] module; [driver c n] is what the driver
    answers to the n-th issue (counted from 0) of the call [c]. *)
Record Env := mkEnv {
  now : nat -> string;
  now_fmt : string -> nat -> string;
  rand : nat -> nat;
  driver : Call -> nat -> Reply
}.

(** [TLSConfig] is imported from [.config] (line 20), which is not part of
    the source at hand: its tables are parameters. Durations are in
    milliseconds. *)
Record TLSConfig := mkConfig {
  CENTERS : gmap string string;
  AUTH_PARAMS : gset string;
  BASE_URL : string;
  TIMEOUTS : gmap string Z
}.

(** The names bound in the module namespace by the imports (lines 3-21) and
    the top-level statements; reading any other global is a NameError. *)
Definition module_globals : list string :=
  [ "asyncio"; "random"; "logging"; "json"; "smtplib"; "MIMEText";
    "MIMEMultipart"; "datetime"; "Path"; "Optional"; "Dict"; "List"; "Any";
    "async_playwright"; "Browser"; "Page"; "logger"; "TLSConfig";
    "BROWSER_CONFIG"; "AccountStatus"; "TLSVisaBot"; "start_workflow";
    "_handle_cloudflare"; "login"; "_human_delay"; "_human_type";
    "_human_scroll"; "send_security_notification"; "main" ].

(** The double-quote character, for selectors that contain it. *)
Definition dquote : string := String (Ascii.ascii_of_nat 34) EmptyString.

(** [str.upper()] on ASCII text. *)
Definition upper_ascii (c : Ascii.ascii) : Ascii.ascii :=
  let n := Ascii.nat_of_ascii c in
  if ((97 <=? n) && (n <=? 122))%nat then Ascii.ascii_of_nat (n - 32) else c.

Fixpoint upper (s : string) : string :=
  match s with
  | EmptyString => EmptyString
  | String c s' => String (upper_ascii c) (upper s')
  end.

(** The characters of a string, as [for char in text] yields them. *)
Fixpoint chars (s : string) : list string :=
  match s with
  | EmptyString => []
  | String c s' => String c EmptyString :: chars s'
  end.

(** [needle in haystack] on strings. *)
Fixpoint contains (needle haystack : string) : bool :=
  String.prefix needle haystack ||
  match haystack with
  | EmptyString => false
  | String _ rest => contains needle rest
  end.

Section Model.

Context (env : Env) (cfg : TLSConfig).

(** *** Primitive effects *)

(** [datetime.now().isoformat()]. *)
Definition now_iso : M string :=
  fun w => (Ret (now env (clock w)), set_clock (S (clock w)) w).

(** [datetime.now().strftime(fmt)]. *)
Definition now_strftime (fmt : string) : M string :=
  fun w => (Ret (now_fmt env fmt (clock w)), set_clock (S (clock w)) w).

(** One draw of the random module. *)
Definition draw : M nat :=
  fun w => (Ret (rand env (draws w)), set_draws (S (draws w)) w).

(** [random.random() < percent / 100]; the draw is read on a grid of
    hundredths. *)
Definition random_below (percent : nat) : M bool :=
  r <- draw ;; ret (r mod 100 <? percent)%nat.

(** [random.randint(lo, hi)], both ends included. *)
Definition randint (lo hi : Z) : M Z :=
  r <- draw ;; ret (lo + Z.of_nat r mod (hi - lo + 1))%Z.

(** [await asyncio.sleep(random.uniform(lo, hi))]: the duration drawn is
    not observed, only its bounds. *)
Definition sleep_uniform (lo hi : Z) : M unit :=
  _ <- draw ;; modify (emit [EvSleep lo hi]).

Definition log (level msg : string) : M unit :=
  modify (emit [EvLog level msg]).

(** Reading a global name. *)
Definition load_global (name : string) : M unit :=
  if existsb (String.eqb name) module_globals then ret tt
  else raise (NameError name).

(** [TLSConfig.TIMEOUTS[key]]. *)
Definition timeout_of (key : string) : M Z :=
  match TIMEOUTS cfg !! key with
  | Some v => ret v
  | None => raise (KeyError key)
  end.

Definition issue (c : Call) : M PyVal :=
  fun w =>
    let n := calls_of c (trace w) in
    match driver env c n with
    | Ok v => (Ret v, emit [EvCall c] w)
    | Err e => (Raise e, emit [EvCall c] w)
    end.

(** A method call [self.page.meth(...)]: with [self.page] still [None] the
    attribute access fails before the driver is reached. *)
Definition page_call (meth : string) (c : Call) : M PyVal :=
  p <- get page ;;
  match p with
  | None => raise (AttributeError
                     ("'NoneType' object has no attribute '" ++ meth ++ "'"))
  | Some _ => issue c
  end.

Definition page_goto (url : string) : M PyVal := page_call "goto" (Goto url).
Definition page_click (sel : string) : M PyVal := page_call "click" (Click sel).
Definition page_fill (sel text : string) : M PyVal := page_call "fill" (Fill sel text).
Definition page_type (sel ch : string) : M PyVal := page_call "type" (Type_ sel ch).
Definition page_wait_for_selector (sel : string) (state : option string) (timeout : Z)
  : M PyVal := page_call "wait_for_selector" (WaitForSelector sel state timeout).
Definition page_wait_for_load_state (state : string) : M PyVal :=
  page_call "wait_for_load_state" (WaitForLoadState state).
Definition page_reload : M PyVal := page_call "reload" Reload.
Definition page_query_selector (sel : string) : M PyVal :=
  page_call "query_selector" (QuerySelector sel).
Definition page_evaluate (script : string) : M PyVal :=
  page_call "evaluate" (Evaluate script).

(** *** Status ledger: update_account_status, lines 90-136 *)

(** Line 125: the label of the current step, or "Unknown". *)
Definition step_label (w : World) : string :=
  if (current_step w <? length steps)%nat
  then nth (current_step w) steps EmptyString
  else "Unknown".

(** Lines 114-118. *)
Definition track_outcome (status details : string) (account : AccountRecord)
  : AccountRecord :=
  let '(mkRecord st hist upd n err ok) := account in
  if String.eqb status AccountStatus.BOOKED then
    mkRecord st hist upd n err true
  else if existsb (String.eqb status)
            [ AccountStatus.LOGIN_FAILED; AccountStatus.FAILED;
              AccountStatus.BOOKING_FAILED; AccountStatus.CALENDAR_ERROR ] then
    mkRecord st hist upd n (Some details) ok
  else account.

(** Lines 110-111. *)
Definition bump (status : string) (account : AccountRecord) : AccountRecord :=
  let '(mkRecord _ hist upd n err ok) := account in
  mkRecord status hist upd (n + 1) err ok.

(** Lines 121-127, given the timestamp read and the step label. *)
Definition append_entry (stamp status details label : string)
           (account : AccountRecord) : AccountRecord :=
  let '(mkRecord st hist upd n err ok) := account in
  mkRecord st (hist ++ [mkEntry stamp status details label n]) upd n err ok.

(** Line 128. *)
Definition touch (stamp : string) (account : AccountRecord) : AccountRecord :=
  let '(mkRecord st hist _ n err ok) := account in
  mkRecord st hist stamp n err ok.

Definition update_account_status (email status details : string) : M unit :=
  (* lines 98-106 *)
  known <- get (fun w => account_history w !! email) ;;
  account <- match known with
             | Some a => ret a
             | None => stamp <- now_iso ;;
                       ret (mkRecord status [] stamp 0 None false)
             end ;;
  (* lines 109-118 *)
  let account := track_outcome status details (bump status account) in
  (* lines 120-127 *)
  stamp <- now_iso ;;
  label <- get step_label ;;
  let account := append_entry stamp status details label account in
  (* line 128 *)
  stamp' <- now_iso ;;
  let account := touch stamp' account in
  modify (fun w => set_account_history (<[email := account]> (account_history w)) w) ;;
  (* lines 130-133 *)
  snapshot <- get account_history ;;
  modify (emit [EvWriteHistory snapshot]) ;;
  (* line 136 *)
  log "info" ("Account " ++ email ++ " status updated to " ++ status ++ ": " ++ details).

(** *** Small helpers for Python idioms *)

Definition diverge {A} : M A := fun w => (Diverge, w).

(** [for x in xs: body x]. *)
Fixpoint for_each {A} (xs : list A) (body : A -> M unit) : M unit :=
  match xs with
  | [] => ret tt
  | x :: xs' => body x ;; for_each xs' body
  end.

(** A number received from the driver, for the comparisons of
    [_human_scroll]. *)
Definition as_int (v : PyVal) : M Z :=
  match v with
  | VInt z => ret z
  | _ => raise (TypeError "'<=' not supported between these operands")
  end.

Definition as_handle (v : PyVal) : option nat :=
  match v with VElem h => Some h | _ => None end.

(** [str(v)] as an f-string renders it. *)
Definition py_str (v : PyVal) : string :=
  match v with
  | VNone => "None"
  | VBool true => "True"
  | VBool false => "False"
  | VInt z => pretty z
  | VStr s => s
  | VElem _ => "<ElementHandle>"
  | VElems _ => "[...]"
  end.

(** [self.steps[i]] for an index the caller keeps in range. *)
Definition step_name (i : nat) : string := nth i steps EmptyString.

(** *** Pacing primitives *)

(** _human_delay, lines 692-697. *)
Definition _human_delay (min_delay max_delay : option Z) : M unit :=
  lo <- match min_delay with
        | Some v => if (v =? 0)%Z then timeout_of "retry" else ret v
        | None => timeout_of "retry"
        end ;;
  hi <- match max_delay with
        | Some v => if (v =? 0)%Z then timeout_of "page_load" else ret v
        | None => timeout_of "page_load"
        end ;;
  sleep_uniform lo hi.

(** [TIMING[key]] (lines 706-707): the name is read first, and nothing in the
    module binds it. *)
Definition timing (key : string) : M Z :=
  load_global "TIMING" ;; raise (KeyError key).

(** _human_type, lines 182-189 (the method in the class body). *)
Definition _human_type_L182 (selector text : string) : M unit :=
  _ <- page_click selector ;;
  _human_delay (Some 100%Z) (Some 300%Z) ;;
  _ <- page_fill selector EmptyString ;;
  for_each (chars text) (fun char =>
    _ <- page_type selector char ;;
    _human_delay (Some 50%Z) (Some 150%Z)).

(** The [try] block of _human_type, lines 702-708. *)
Definition _human_type_body (selector text : string) : M unit :=
  _ <- page_click selector ;;
  for_each (chars text) (fun char =>
    _ <- page_type selector char ;;
    lo <- timing "typing_delay_min" ;;
    hi <- timing "typing_delay_max" ;;
    sleep_uniform lo hi).

(** _human_type, lines 699-711. *)
Definition _human_type (selector text : string) : M unit :=
  try_except (_human_type_body selector text)
    (fun e => log "error" ("Error during human typing: " ++ exn_msg e) ;;
              raise e).

(** The first loop of _human_scroll, lines 729-737. *)
Fixpoint scroll_down (fuel : nat) (page_height current_scroll : Z) : M Z :=
  if (current_scroll <? page_height)%Z then
    match fuel with
    | O => diverge
    | S fuel' =>
        step <- randint 100 300 ;;
        _ <- page_evaluate ("window.scrollBy(0, " ++ pretty step ++ ")") ;;
        let current_scroll := (current_scroll + step)%Z in
        _human_delay (Some 100%Z) (Some 300%Z) ;;
        pause <- random_below 20 ;;
        (if pause then _human_delay (Some 500%Z) (Some 1000%Z) else ret tt) ;;
        scroll_down fuel' page_height current_scroll
    end
  else ret current_scroll.

(** The second loop of _human_scroll, lines 743-754. *)
Fixpoint scroll_up (fuel : nat) (current_scroll : Z) : M unit :=
  if (0 <? current_scroll)%Z then
    match fuel with
    | O => diverge
    | S fuel' =>
        step <- randint 100 300 ;;
        let current_scroll := Z.max 0 (current_scroll - step) in
        _ <- page_evaluate ("window.scrollBy(0, -" ++ pretty step ++ ")") ;;
        _human_delay (Some 100%Z) (Some 300%Z) ;;
        move <- random_below 30 ;;
        (if move then
           x <- randint 100 500 ;;
           y <- randint 100 500 ;;
           _ <- page_call "mouse" (MouseMove x y) ;; ret tt
         else ret tt) ;;
        scroll_up fuel' current_scroll
    end
  else ret tt.

(** The [try] block of _human_scroll, lines 716-754. *)
Definition _human_scroll_body (fuel : nat) : M unit :=
  page_height <- page_evaluate "document.body.scrollHeight" ;;
  viewport_height <- page_evaluate "window.innerHeight" ;;
  ph <- as_int page_height ;;
  vh <- as_int viewport_height ;;
  if (ph <=? vh)%Z then ret tt
  else
    _human_delay (Some 500%Z) (Some 1500%Z) ;;
    current_scroll <- scroll_down fuel ph 0 ;;
    _human_delay (Some 1000%Z) (Some 2000%Z) ;;
    scroll_up fuel current_scroll.

(** _human_scroll, lines 713-759. *)
Definition _human_scroll (fuel : nat) : M unit :=
  try_finally
    (try_except (_human_scroll_body fuel)
       (fun e => log "error" ("Error during human scrolling: " ++ exn_msg e) ;;
                 raise e))
    (_human_delay (Some 500%Z) (Some 1000%Z)).

(** *** Notification sink, lines 1484-1513 *)

Definition send_security_notification (issue_type text : string)
           (account_email : PyVal) : M bool :=
  try_except
    (let account := if truthy account_email then Some (py_str account_email)
                    else None in
     stamp <- now_strftime "%Y-%m-%d %H:%M:%S" ;;
     modify (emit [EvAlert issue_type text account stamp]) ;;
     log "warning" ("Security alert logged: " ++ issue_type) ;;
     ret true)
    (fun e => log "error" ("Error sending security notification: " ++ exn_msg e) ;;
              ret false).

(** *** close, lines 1515-1520 *)

Definition close : M unit :=
  b <- get browser ;;
  match b with
  | Some h =>
      _ <- issue (BrowserClose h) ;;
      modify (set_browser None) ;;
      modify (set_page None)
  | None => ret tt
  end.

(** [await elem.meth()] on what a query returned. *)
Definition elem_call (meth : string) (v : PyVal) (c : nat -> Call) : M PyVal :=
  match v with
  | VElem h => issue (c h)
  | _ => raise (AttributeError ("object has no attribute '" ++ meth ++ "'"))
  end.

(** *** setup, lines 191-301 *)

Definition user_agents : list string :=
  [ "Mozilla/5.0 (Windows NT 10.0; Win64; x64) AppleWebKit/537.36 (KHTML, like Gecko) Chrome/91.0.4472.124 Safari/537.36";
    "Mozilla/5.0 (Windows NT 10.0; Win64; x64) AppleWebKit/537.36 (KHTML, like Gecko) Chrome/92.0.4515.159 Safari/537.36";
    "Mozilla/5.0 (Macintosh; Intel Mac OS X 10_15_7) AppleWebKit/605.1.15 (KHTML, like Gecko) Version/15.0 Safari/605.1.15";
    "Mozilla/5.0 (Windows NT 10.0; Win64; x64; rv:90.0) Gecko/20100101 Firefox/90.0" ].

(** The stealth script and the header table are payloads without workflow
    meaning; the calls that install them are kept, their text is not. *)
Definition setup : M bool :=
  try_except
    (_ <- issue PlaywrightStart ;;
     r <- draw ;;
     let selected_user_agent := nth (r mod length user_agents) user_agents EmptyString in
     width <- randint 1200 1600 ;;
     height <- randint 800 1000 ;;
     _ <- draw ;;
     browser_context <- issue (LaunchPersistentContext selected_user_agent width height) ;;
     (* line 221: self.browser = browser_context.browser *)
     b <- elem_call "browser" browser_context ContextBrowser ;;
     modify (set_browser (as_handle b)) ;;
     (* line 222: self.page = await browser_context.new_page() *)
     p <- elem_call "new_page" browser_context NewPage ;;
     modify (set_page (as_handle p)) ;;
     _ <- page_call "set_extra_http_headers" SetExtraHTTPHeaders ;;
     _ <- page_call "add_init_script" (AddInitScript "stealth") ;;
     ret true)
    (fun e => log "error" ("Error during setup: " ++ exn_msg e) ;; raise e).

(** *** _handle_cloudflare, lines 1040-1070 (the same text as 615-645) *)

Definition cloudflare_selectors : list string :=
  [ "#challenge-running"; "#challenge-stage"; "#challenge-form";
    "iframe[title='Widget containing a Cloudflare security challenge']" ].

(** The [for] loop, lines 1051-1062; the inner result says whether the loop
    was left by [break]. *)
Fixpoint cloudflare_scan (timeout : Z) (selectors : list string) : M unit :=
  match selectors with
  | [] => ret tt
  | selector :: rest =>
      stop <- try_except
                (challenge <- page_wait_for_selector selector None 5000 ;;
                 if truthy challenge then
                   log "info" "Cloudflare challenge detected, waiting for resolution..." ;;
                   _ <- page_wait_for_selector selector (Some "hidden") (timeout * 1000) ;;
                   _human_delay (Some 2000%Z) (Some 4000%Z) ;;
                   ret true
                 else ret false)
                (fun e => log "debug" ("Selector " ++ selector ++ " not found: " ++ exn_msg e) ;;
                          ret false) ;;
      if stop then ret tt else cloudflare_scan timeout rest
  end.

Definition _handle_cloudflare (timeout : Z) : M unit :=
  try_except
    (cloudflare_scan timeout cloudflare_selectors ;;
     _ <- page_wait_for_load_state "networkidle" ;;
     _human_delay (Some 1000%Z) (Some 3000%Z))
    (fun e => log "error" ("Error handling Cloudflare: " ++ exn_msg e) ;;
              raise (Exception "Failed to bypass Cloudflare protection")).

(** *** login, lines 1073-1115 *)

Definition login (email password : string) : M bool :=
  try_except
    (_human_type "input[type='email']" email ;;
     _human_delay (Some 500%Z) (Some 1500%Z) ;;
     _human_type "input[type='password']" password ;;
     _human_delay (Some 1000%Z) (Some 2000%Z) ;;
     login_button <- page_wait_for_selector "button[type='submit']" None 5000 ;;
     (if truthy login_button then ret tt
      else raise (Exception "Login button not found")) ;;
     _ <- elem_call "click" login_button ElemClick ;;
     _human_delay (Some 2000%Z) (Some 3000%Z) ;;
     _ <- try_except
            (page_wait_for_selector ".user-info, .error-message" None 10000)
            (fun _ => raise (Exception "Login verification timeout")) ;;
     error_message <- page_query_selector ".error-message" ;;
     (if truthy error_message then
        error_text <- elem_call "text_content" error_message ElemTextContent ;;
        raise (Exception ("Login failed: " ++ py_str error_text))
      else ret tt) ;;
     modify (set_logged_in true) ;;
     ret true)
    (fun e => log "error" ("Login failed for " ++ email ++ ": " ++ exn_msg e) ;;
              ret false).

(** *** The login-form retry loops *)

(** [TLSConfig.CENTERS[center.upper()]]. *)
Definition center_url (center : string) : M string :=
  match CENTERS cfg !! upper center with
  | Some url => ret url
  | None => raise (KeyError (upper center))
  end.

(** Lines 347-356, the loop of the start_workflow of the class body. One
    round of the [while] yields [None] after [break] and the new
    [retry_count] otherwise. *)
Fixpoint login_form_loop_L345 (fuel max_retries retry_count : nat) : M unit :=
  if (retry_count <? max_retries)%nat then
    match fuel with
    | O => diverge
    | S fuel' =>
        round <- try_except
                   (_ <- page_wait_for_selector "input[type='email']" None 10000 ;;
                    ret None)
                   (fun e =>
                      let retry_count := (retry_count + 1)%nat in
                      if (retry_count =? max_retries)%nat then
                        raise (Exception "Login form not found after retries")
                      else
                        _human_delay (Some 5000%Z) (Some 8000%Z) ;;
                        _ <- page_reload ;;
                        ret (Some retry_count)) ;;
        match round with
        | None => ret tt
        | Some retry_count => login_form_loop_L345 fuel' max_retries retry_count
        end
    end
  else ret tt.

(** Lines 345-356: [max_retries = 3], [retry_count = 0], then the loop. *)
Definition wait_for_login_form_L345 : M unit :=
  let max_retries := 3%nat in
  login_form_loop_L345 max_retries max_retries 0.

(** Lines 1155-1171 (the same text as 580-596), the loop of the later
    variants, which also reports to the ledger. *)
Fixpoint login_form_loop (email : string) (fuel max_retries retry_count : nat) : M unit :=
  if (retry_count <? max_retries)%nat then
    match fuel with
    | O => diverge
    | S fuel' =>
        round <- try_except
                   (_ <- page_wait_for_selector "input[type='email']" None 10000 ;;
                    cs <- get current_step ;;
                    update_account_status email AccountStatus.INIT
                      ("Step " ++ pretty cs ++ ": Login form found, starting authentication") ;;
                    ret None)
                   (fun e =>
                      let retry_count := (retry_count + 1)%nat in
                      cs <- get current_step ;;
                      if (retry_count =? max_retries)%nat then
                        update_account_status email AccountStatus.LOGIN_FAILED
                          ("Step " ++ pretty cs ++ ": Login form not found after "
                           ++ pretty max_retries ++ " retries") ;;
                        raise (Exception "Login form not found after retries")
                      else
                        update_account_status email AccountStatus.INIT
                          ("Step " ++ pretty cs ++ ": Retrying to find login form (attempt "
                           ++ pretty retry_count ++ "/" ++ pretty max_retries ++ ")") ;;
                        _human_delay (Some 5000%Z) (Some 8000%Z) ;;
                        _ <- page_reload ;;
                        ret (Some retry_count)) ;;
        match round with
        | None => ret tt
        | Some retry_count => login_form_loop email fuel' max_retries retry_count
        end
    end
  else ret tt.

(** Lines 1151-1171. *)
Definition wait_for_login_form (email : string) : M unit :=
  let max_retries := 3%nat in
  login_form_loop email max_retries max_retries 0.

(** *** Calendar monitor *)


(** [bool(d)] and [d.get(key)] on the dict of [self.current_account]. *)
Definition dict_truthy (d : option (gmap string PyVal)) : bool :=
  match d with
  | Some m => match map_to_list m with [] => false | _ => true end
  | None => false
  end.

Definition dict_get (key : string) (d : option (gmap string PyVal)) : PyVal :=
  match d with
  | Some m => default VNone (m !! key)
  | None => VNone
  end.

(** Lines 1451-1461: what follows the loop when nothing was found. *)
Definition monitor_give_up : M bool :=
  log "warning" "Monitoring time limit reached without finding available dates" ;;
  account <- get current_account ;;
  (if dict_truthy account then
     occasionally <- random_below 10 ;;
     if occasionally then
       _ <- send_security_notification "Calendar Selectors May Have Changed"
              "Bot monitored the calendar page for the maximum time but couldn't find any available dates. This could be normal (no appointments available) or the calendar selectors may have changed."
              (dict_get "email" account) ;;
       ret tt
     else ret tt
   else ret tt) ;;
  ret false.


(** *** start_workflow, lines 1117-1467 *)

(** [await self.page.goto(TLSConfig.CENTERS[center.upper()], ...)]: the
    method is looked up on [self.page], then the argument is evaluated, then
    the driver is called. *)
Definition goto_center (center : string) : M unit :=
  p <- get page ;;
  match p with
  | None => raise (AttributeError "'NoneType' object has no attribute 'goto'")
  | Some _ => url <- center_url center ;; _ <- issue (Goto url) ;; ret tt
  end.

(** Lines 1202-1255 sit in the [except] block of line 1197 behind its
    [raise], so no run reaches them. This is their city-selection part,
    lines 1235-1252; line 1252 calls the string [center_upper], which ends
    the fragment before its [goto]. *)
Definition select_city_L1235 (email center : string) : M unit :=
  modify (set_current_step 5) ;;
  cs <- get current_step ;;
  update_account_status email AccountStatus.BOOKING
    ("Step " ++ pretty cs ++ ": " ++ step_name (cs - 1) ++ " - Selecting city " ++ center) ;;
  let center_upper := upper center in
  update_account_status email AccountStatus.BOOKING
    ("Step " ++ pretty cs ++ ": Navigating to " ++ center_upper ++ " appointment center") ;;
  (if bool_decide (center_upper ∈ AUTH_PARAMS cfg) then ret tt
   else
     _ <- send_security_notification "Invalid Center"
            ("Unknown center code: " ++ center ++ ". Bot cannot proceed with workflow.")
            (VStr email) ;;
     raise (Exception ("Unknown center: " ++ center))) ;;
  raise (TypeError "'str' object is not callable").

(** The reachable statements of the [try] block: lines 1120-1200, then
    lines 1451-1461. *)
Definition start_workflow_body (email password center : string) : M bool :=
  modify (set_current_account
            (Some (<["email" := VStr email]> (<["current_step" := VInt 0]> ∅)))) ;;
  update_account_status email AccountStatus.INIT ("Starting workflow - " ++ step_name 0) ;;
  (* lines 1126-1132 *)
  try_except
    (_handle_cloudflare 90 ;;
     update_account_status email AccountStatus.INIT "Successfully bypassed Cloudflare")
    (fun cf_error =>
       update_account_status email AccountStatus.CLOUDFLARE (exn_msg cf_error) ;;
       raise cf_error) ;;
  (* lines 1135-1143 *)
  try_except
    (modify (set_current_step 1) ;;
     cs <- get current_step ;;
     update_account_status email AccountStatus.INIT
       ("Step " ++ pretty cs ++ ": " ++ step_name (cs - 1)) ;;
     _human_delay (Some 2000%Z) (Some 4000%Z) ;;
     goto_center center)
    (fun nav_error =>
       update_account_status email AccountStatus.NETWORK_ERROR (exn_msg nav_error) ;;
       raise nav_error) ;;
  (* lines 1146-1171 *)
  modify (set_current_step 2) ;;
  cs <- get current_step ;;
  update_account_status email AccountStatus.INIT
    ("Step " ++ pretty cs ++ ": " ++ step_name (cs - 1) ++ " - Waiting for login form") ;;
  wait_for_login_form email ;;
  (* lines 1174-1180 *)
  login_success <- login email password ;;
  (if login_success then ret tt
   else
     update_account_status email AccountStatus.LOGIN_FAILED "Failed to authenticate" ;;
     raise (Exception "Login failed")) ;;
  cs <- get current_step ;;
  update_account_status email AccountStatus.LOGGED_IN
    ("Step " ++ pretty cs ++ ": Successfully authenticated") ;;
  (* lines 1183-1190 *)
  modify (set_current_step 3) ;;
  cs <- get current_step ;;
  update_account_status email AccountStatus.BOOKING
    ("Step " ++ pretty cs ++ ": " ++ step_name (cs - 1) ++ " - Starting appointment booking") ;;
  modify (set_current_step 4) ;;
  cs <- get current_step ;;
  update_account_status email AccountStatus.BOOKING
    ("Step " ++ pretty cs ++ ": " ++ step_name (cs - 1) ++ " - Selecting country") ;;
  (* lines 1193-1200 *)
  try_except
    (_ <- page_goto (BASE_URL cfg) ;;
     _human_delay (Some 2000%Z) (Some 4000%Z))
    (fun nav_error =>
       cs <- get current_step ;;
       update_account_status email AccountStatus.NETWORK_ERROR
         ("Step " ++ pretty cs ++ ": Navigation error - " ++ exn_msg nav_error) ;;
       raise nav_error) ;;
  (* lines 1451-1461 *)
  monitor_give_up.

Definition start_workflow (email password center : string) : M bool :=
  try_finally
    (try_except (start_workflow_body email password center)
       (fun e => log "error" ("Failed to monitor calendar: " ++ exn_msg e) ;;
                 raise e))
    (_human_delay (Some 1000%Z) (Some 2000%Z) ;;
     _human_delay (Some 1000%Z) (Some 2000%Z)).

(** *** start_workflow, lines 533-613 *)

(** [isinstance(e, PlaywrightError)] once the name is resolved: the driver's
    own exception classes. *)
Definition is_playwright_error (e : PyExn) : bool :=
  String.eqb (exn_class e) "playwright.Error"
  || String.eqb (exn_class e) "playwright.TimeoutError".

(** The [except] block, lines 558-566. Line 559 reads the global
    [PlaywrightError] and line 564 the attribute [AccountStatus.ERROR]. *)
Definition classify_failure_L558 (email : string) (e : PyExn) : M unit :=
  load_global "PlaywrightError" ;;
  (if is_playwright_error e then
     update_account_status email AccountStatus.NETWORK_ERROR (exn_msg e)
   else if contains "Cloudflare" (exn_msg e) then
     update_account_status email AccountStatus.CLOUDFLARE (exn_msg e)
   else
     match AccountStatus.getattr "ERROR" with
     | Some st => update_account_status email st (exn_msg e)
     | None => raise (AttributeError
                        "type object 'AccountStatus' has no attribute 'ERROR'")
     end) ;;
  log "error" ("Workflow failed: " ++ exn_msg e) ;;
  raise e.

(** The [try] block, lines 536-557. *)
Definition start_workflow_L533_try (email center : string) : M unit :=
  modify (set_current_account
            (Some (<["email" := VStr email]> (<["current_step" := VInt 0]> ∅)))) ;;
  update_account_status email AccountStatus.INIT ("Starting workflow - " ++ step_name 0) ;;
  b <- get browser ;;
  (match b with
   | Some _ => ret tt
   | None =>
       setup_success <- setup ;;
       if setup_success then ret tt else raise (Exception "Failed to set up browser")
   end) ;;
  _handle_cloudflare 90 ;;
  update_account_status email AccountStatus.INIT "Successfully bypassed Cloudflare" ;;
  modify (set_current_step 1) ;;
  cs <- get current_step ;;
  update_account_status email AccountStatus.INIT
    ("Step " ++ pretty cs ++ ": " ++ step_name (cs - 1)) ;;
  _human_delay (Some 2000%Z) (Some 4000%Z) ;;
  goto_center center.

(** The [finally] block, lines 567-613: by its indentation everything from
    "Step 2" on belongs to it. *)
Definition start_workflow_L533_finally (email password : string) : M unit :=
  _human_delay (Some 1000%Z) (Some 2000%Z) ;;
  modify (set_current_step 2) ;;
  cs <- get current_step ;;
  update_account_status email AccountStatus.INIT
    ("Step " ++ pretty cs ++ ": " ++ step_name (cs - 1) ++ " - Waiting for login form") ;;
  wait_for_login_form email ;;
  try_except
    (login_success <- login email password ;;
     if login_success then ret tt else raise (Exception "Login failed"))
    (fun e =>
       log "error" ("Login failed: " ++ exn_msg e) ;;
       update_account_status email AccountStatus.LOGIN_FAILED "Failed to authenticate" ;;
       raise (Exception "Login failed")) ;;
  cs <- get current_step ;;
  update_account_status email AccountStatus.LOGGED_IN
    ("Step " ++ pretty cs ++ ": Successfully authenticated") ;;
  modify (set_current_step 3) ;;
  cs <- get current_step ;;
  update_account_status email AccountStatus.BOOKING
    ("Step " ++ pretty cs ++ ": " ++ step_name (cs - 1) ++ " - Starting appointment booking").

Definition start_workflow_L533 (email password center : string) : M unit :=
  try_finally
    (try_except (start_workflow_L533_try email center)
       (classify_failure_L558 email))
    (start_workflow_L533_finally email password).

(** *** start_workflow, lines 808-868 *)

(** A stage of the function: [Some b] when it executed [return b], [None]
    when control falls through to the next stage. *)
Definition stage_then (m : M (option bool)) (k : M (option bool)) : M (option bool) :=
  r <- m ;;
  match r with
  | Some b => ret (Some b)
  | None => k
  end.

(** Lines 810-826. *)
Definition stage_init_L808 (email : string) : M (option bool) :=
  try_except
    (modify (set_current_account
               (Some (<["email" := VStr email]> (<["current_step" := VInt 0]> ∅)))) ;;
     update_account_status email AccountStatus.INIT ("Starting workflow - " ++ step_name 0) ;;
     b <- get browser ;;
     match b with
     | Some _ => ret None
     | None =>
         setup_success <- setup ;;
         if setup_success then ret None else raise (Exception "Failed to set up browser")
     end)
    (fun e =>
       log "error" ("Failed to navigate to booking: " ++ exn_msg e) ;;
       update_account_status email AccountStatus.FAILED EmptyString ;;
       ret (Some false)).

(** Lines 828-835. *)
Definition stage_center_L808 (email center : string) : M (option bool) :=
  try_except
    (_ <- page_call "select_option" (SelectOption "select#VisaCenter" center) ;;
     _human_delay (Some 1000%Z) (Some 2000%Z) ;;
     ret None)
    (fun e =>
       log "error" ("Failed to select center: " ++ exn_msg e) ;;
       update_account_status email AccountStatus.FAILED EmptyString ;;
       ret (Some false)).

(** Lines 837-857. *)
Definition stage_calendar_L808 (email : string) : M (option bool) :=
  try_except
    (calendar <- page_query_selector ".calendar" ;;
     if truthy calendar then
       available_dates <- elem_call "query_selector_all" calendar
                            (fun h => ElemQuerySelectorAll h ".available") ;;
       if truthy available_dates then
         match available_dates with
         | VElems (first :: _) =>
             _ <- issue (ElemClick first) ;;
             _human_delay (Some 1000%Z) (Some 2000%Z) ;;
             ret None
         | _ => raise (TypeError "object is not subscriptable")
         end
       else
         log "info" "No available dates found" ;;
         update_account_status email AccountStatus.BOOKING_FAILED EmptyString ;;
         ret (Some false)
     else
       log "error" "Calendar not found" ;;
       update_account_status email AccountStatus.CALENDAR_ERROR EmptyString ;;
       ret (Some false))
    (fun e =>
       log "error" ("Error checking calendar: " ++ exn_msg e) ;;
       update_account_status email AccountStatus.CALENDAR_ERROR EmptyString ;;
       ret (Some false)).

(** Lines 859-868. *)
Definition stage_booking_L808 (email : string) : M (option bool) :=
  try_except
    (_ <- page_click ("button[type=" ++ dquote ++ "submit" ++ dquote ++ "]") ;;
     _ <- page_wait_for_selector ".confirmation" None 10000 ;;
     update_account_status email AccountStatus.BOOKED EmptyString ;;
     ret (Some true))
    (fun e =>
       log "error" ("Failed to complete booking: " ++ exn_msg e) ;;
       update_account_status email AccountStatus.BOOKING_FAILED EmptyString ;;
       ret (Some false)).

Definition start_workflow_L808 (email password center : string) : M (option bool) :=
  stage_then (stage_init_L808 email)
    (stage_then (stage_center_L808 email center)
       (stage_then (stage_calendar_L808 email)
          (stage_booking_L808 email))).

End Model.

(** ** Vocabulary of the statements *)

(** What happens to a bot between two observations of its ledger: the
    engine moves to another step, or a status is recorded. *)
Inductive LedgerOp :=
| OpStep (n : nat)
| OpUpdate (email status details : string).

Definition run_op (env : Env) (w : World) (op : LedgerOp) : World :=
  match op with
  | OpStep n => set_current_step n w
  | OpUpdate email status details =>
      (update_account_status env email status details w).2
  end.

Definition run_ops (env : Env) (ops : list LedgerOp) (w : World) : World :=
  fold_left (run_op env) ops w.

(** The statuses recorded for [email] by a sequence, in order. *)
Fixpoint statuses_for (email : string) (ops : list LedgerOp) : list string :=
  match ops with
  | [] => []
  | OpUpdate e status _ :: ops' =>
      if String.eqb e email then status :: statuses_for email ops'
      else statuses_for email ops'
  | OpStep _ :: ops' => statuses_for email ops'
  end.

Definition history_of (w : World) (email : string) : list HistoryEntry :=
  match account_history w !! email with
  | Some a => history a
  | None => []
  end.

Definition success_of (w : World) (email : string) : bool :=
  match account_history w !! email with
  | Some a => success a
  | None => false
  end.


(** The statuses section 4.2 of the specification marks terminal, and among
    them those that classify a failure. The source has no such
    classification; these lists only serve to state the claims about it. *)
Definition spec_failure_statuses : list string :=
  [ AccountStatus.LOGIN_FAILED; AccountStatus.FAILED; AccountStatus.CLOUDFLARE;
    AccountStatus.BOOKING_FAILED; AccountStatus.CALENDAR_ERROR;
    AccountStatus.SESSION_EXPIRED; AccountStatus.NETWORK_ERROR;
    AccountStatus.MAINTENANCE ].

Definition spec_terminal_statuses : list string :=
  AccountStatus.BOOKED :: spec_failure_statuses.

Definition is_terminal (status : string) : bool :=
  existsb (String.eqb status) spec_terminal_statuses.

(** The most recent terminal status of a sequence, if it has one. *)
Fixpoint last_terminal (statuses : list string) : option string :=
  match statuses with
  | [] => None
  | s :: rest =>
      match last_terminal rest with
      | Some t => Some t
      | None => if is_terminal s then Some s else None
      end
  end.

(** The statuses for which line 116-117 stores the detail as [last_error]. *)
Definition error_statuses : list string :=
  [ AccountStatus.LOGIN_FAILED; AccountStatus.FAILED;
    AccountStatus.BOOKING_FAILED; AccountStatus.CALENDAR_ERROR ].

(** The record [update_account_status] leaves under [email], in closed form:
    [prev] is what the ledger held before and [c] the state of the clock. *)
Definition next_record (env : Env) (prev : option AccountRecord) (c : nat)
           (status details label : string) : AccountRecord :=
  let base := match prev with
              | Some a => a
              | None => mkRecord status [] (now env c) 0 None false
              end in
  let c0 := match prev with Some _ => c | None => S c end in
  touch (now env (S c0))
    (append_entry (now env c0) status details label
       (track_outcome status details (bump status base))).

Arguments next_record : simpl never.

Definition next_clock (prev : option AccountRecord) (c : nat) : nat :=
  match prev with Some _ => S (S c) | None => S (S (S c)) end.

(** What the ledger holds for [email] after [n] recorded statuses. *)
Definition ledger_inv (email : string) (n : nat) (w : World) : Prop :=
  match account_history w !! email with
  | None => n = 0
  | Some a =>
      0 < n /\ length (history a) = n /\ total_attempts a = n /\
      map attempt (history a) = seq 1 n
  end.

(** The precondition check of the login-form retry loops. *)
Definition form_check : Call := WaitForSelector "input[type='email']" None 10000.

(** The statuses of the entries the ledger holds for [email], in order. *)
Definition recorded_statuses (w : World) (email : string) : list string :=
  map h_status (history_of w email).

(** The exception the retry loops raise when the attempts are used up. *)
Definition login_form_not_found : PyExn :=
  Exception "Login form not found after retries".

(** The world [update_account_status] returns in. *)
Definition record_status (env : Env) (email status details : string) (w : World)
  : World :=
  (update_account_status env email status details w).2.

Arguments record_status : simpl never.

(** An operation is calm when it always comes back, with a result or an
    exception, and on the way neither sends a notification nor starts a
    navigation. *)
Definition calm {A} (m : M A) : Prop :=
  forall w,
    (m w).1 <> Diverge /\
    alerts (trace (m w).2) = alerts (trace w) /\
    gotos (trace (m w).2) = gotos (trace w).

(** It fails calmly when, in addition, it always comes back with an
    exception. *)
Definition fails_calmly {A} (m : M A) : Prop :=
  forall w,
    (exists e, (m w).1 = Raise e) /\
    alerts (trace (m w).2) = alerts (trace w) /\
    gotos (trace (m w).2) = gotos (trace w).


(** ** Concrete surroundings for examples *)

Definition demo_now (k : nat) : string := "T" ++ pretty k.

(** A driver that answers every call with [None]. *)
Definition quiet_driver : Call -> nat -> Reply := fun _ _ => Ok VNone.

Definition demo_env : Env :=
  mkEnv demo_now (fun _ k => demo_now k) (fun _ => 50) quiet_driver.

Definition demo_cfg : TLSConfig :=
  mkConfig (<["PAR" := "https://fr.tlscontact.com/visa/ma/PAR"]> ∅)
           {["PAR"]}
           "https://fr.tlscontact.com"
           (<["retry" := 1000%Z]> (<["page_load" := 3000%Z]> ∅)).

(** A world in which [setup] has run: a page and a browser are open. *)
Definition open_world : World :=
  mkWorld (Some 1) (Some 2) None false 0 ∅ 0 0 [].

(** A driver whose login-form check times out on its first [failures]
    issues and finds the form afterwards; every other call succeeds. *)
Definition timeout_error : PyExn :=
  mkExn "playwright.TimeoutError" "Timeout 10000ms exceeded.".

Definition flaky_driver (failures : nat) : Call -> nat -> Reply :=
  fun c n =>
    if decide (c = form_check) then
      if (n <? failures)%nat then Err timeout_error else Ok (VElem 7)
    else Ok VNone.

Definition flaky_env (failures : nat) : Env :=
  mkEnv demo_now (fun _ k => demo_now k) (fun _ => 50) (flaky_driver failures).

(** A driver that has lost its connection: every call fails. *)
Definition net_error : PyExn := mkExn "playwright.Error" "net::ERR_CONNECTION_RESET".

Definition broken_driver : Call -> nat -> Reply := fun _ _ => Err net_error.

Definition broken_env : Env :=
  mkEnv demo_now (fun _ k => demo_now k) (fun _ => 50) broken_driver.

(** A driver as [setup] meets it: launching yields a persistent context,
    the context opens a page, and the context's [browser] attribute is
    [None]; [goto] fails when [online] is false. *)
Definition persistent_driver (online : bool) : Call -> nat -> Reply :=
  fun c _ =>
    match c with
    | LaunchPersistentContext _ _ _ => Ok (VElem 1)
    | ContextBrowser _ => Ok VNone
    | NewPage _ => Ok (VElem 2)
    | Goto _ => if online then Ok VNone else Err net_error
    | _ => Ok VNone
    end.

Definition persistent_env (online : bool) : Env :=
  mkEnv demo_now (fun _ k => demo_now k) (fun _ => 50) (persistent_driver online).



(** A driver for the one-shot calendar of lines 837-857: the calendar is the
    handle 9 and lists [dates]. *)
Definition booking_driver (dates : list nat) : Call -> nat -> Reply :=
  fun c _ =>
    match c with
    | QuerySelector _ => Ok (VElem 9)
    | ElemQuerySelectorAll _ _ => Ok (VElems dates)
    | _ => Ok VNone
    end.

Definition booking_env (dates : list nat) : Env :=
  mkEnv demo_now (fun _ k => demo_now k) (fun _ => 50) (booking_driver dates).

(** ** More of the source *)

(** *** get_account_report, lines 138-172 *)

(** The newline character. *)
Definition newline : string := String (Ascii.ascii_of_nat 10) EmptyString.

(** ["\n".join(lines)]. *)
Fixpoint join_lines (lines : list string) : string :=
  match lines with
  | [] => EmptyString
  | [l] => l
  | l :: rest => l ++ newline ++ join_lines rest
  end.

(** Truthiness of [account['last_error']]: [None] and the empty string are
    both false. *)
Definition truthy_text (s : option string) : bool :=
  match s with
  | Some t => negb (String.eqb t EmptyString)
  | None => false
  end.

(** Lines 165-170: what one history entry adds to the report. *)
Definition entry_lines (entry : HistoryEntry) : list string :=
  [ newline ++ "[" ++ timestamp entry ++ "]";
    "Attempt #" ++ pretty (attempt entry);
    "Status: " ++ h_status entry;
    "Step: " ++ step entry ] ++
  (if negb (String.eqb (details entry) EmptyString)
   then ["Details: " ++ details entry] else []).

(** Lines 151-170: the list [report] before it is joined. *)
Definition report_lines (email : string) (account : AccountRecord) : list string :=
  [ "Account Report for " ++ email;
    "Current Status: " ++ status account;
    "Total Attempts: " ++ pretty (total_attempts account);
    "Last Updated: " ++ last_updated account;
    "Success: " ++ (if success account then "Yes" else "No") ] ++
  (if truthy_text (last_error account)
   then ["Last Error: " ++ default EmptyString (last_error account)] else []) ++
  [ newline ++ "Detailed History:" ] ++
  concat (map entry_lines (history account)).

Definition get_account_report (w : World) (email : string) : string :=
  match account_history w !! email with
  | None => "No history found for account " ++ email
  | Some account => join_lines (report_lines email account)
  end.

(** The strings of the list [report] (the report is their join) that begin
    with [prefix]. *)
Definition lines_with (prefix : string) (lines : list string) : list string :=
  List.filter (String.prefix prefix) lines.

(** *** Vocabulary for the ledger *)

(** The status and detail of each call for [email] in a sequence, in order. *)
Fixpoint calls_for (email : string) (ops : list LedgerOp) : list (string * string) :=
  match ops with
  | [] => []
  | OpUpdate e status details :: ops' =>
      if String.eqb e email then (status, details) :: calls_for email ops'
      else calls_for email ops'
  | OpStep _ :: ops' => calls_for email ops'
  end.

(** Whether a sequence records anything, for any identity. *)
Definition records_something (ops : list LedgerOp) : bool :=
  existsb (fun op => match op with OpUpdate _ _ _ => true | OpStep _ => false end) ops.

(** The snapshot most recently written to the history file. *)
Fixpoint last_write (tr : list Event) : option (gmap string AccountRecord) :=
  match tr with
  | [] => None
  | ev :: tr' =>
      match last_write tr' with
      | Some snapshot => Some snapshot
      | None => match ev with EvWriteHistory snapshot => Some snapshot | _ => None end
      end
  end.

(** *** main, lines 1522-1530 *)



(** *** start_workflow, lines 334-471 (the method of the class body) *)

(** [try: body / finally: fin] for a [fin] that ends in [return]: what
    [fin] returns replaces the pending outcome of [body], an exception
    included. *)
Definition try_finally_return {A} (body : M A) (fin : M A) : M A :=
  fun w =>
    match body w with
    | (Diverge, w1) => (Diverge, w1)
    | (_, w1) => fin w1
    end.

(** [title == "Login"] on what the title query answered. *)
Definition is_login_title (title : PyVal) : bool :=
  match title with
  | VStr s => String.eqb s "Login"
  | _ => false
  end.

Section ClassWorkflow.

Context (env : Env) (cfg : TLSConfig).

(** [await self.page.title()], line 368. The driver interface above has no
    call for the title of the page: the workflow is modelled for whatever
    this query does. *)
Context (page_title : M PyVal).

(** The [try] block, lines 337-463. The scripts of lines 390-461 are
    payloads; each is named by what it overrides. *)
Definition start_workflow_L334_try (email password center : string) : M bool :=
  _handle_cloudflare env cfg 90 ;;
  _human_delay env cfg (Some 2000%Z) (Some 4000%Z) ;;
  goto_center env cfg center ;;
  (* lines 345-356 *)
  wait_for_login_form_L345 env cfg ;;
  (* lines 359-366 *)
  _human_type env "input[type='email']" email ;;
  _human_delay env cfg (Some 500%Z) (Some 1500%Z) ;;
  _human_type env "input[type='password']" password ;;
  _human_delay env cfg (Some 1000%Z) (Some 2000%Z) ;;
  _ <- page_click env "button[type='submit']" ;;
  _ <- page_wait_for_load_state env "networkidle" ;;
  (* lines 368-370 *)
  title <- page_title ;;
  (if is_login_title title
   then raise (Exception "Login failed - still on login page")
   else ret tt) ;;
  (* lines 372-461 *)
  _ <- page_call env "set_extra_http_headers" SetExtraHTTPHeaders ;;
  _ <- page_call env "add_init_script" (AddInitScript "navigator.webdriver") ;;
  _ <- page_call env "add_init_script" (AddInitScript "permissions.query") ;;
  _ <- page_call env "add_init_script" (AddInitScript "navigator.maxTouchPoints") ;;
  _ <- page_call env "add_init_script" (AddInitScript "getContext") ;;
  _human_delay env cfg (Some 1000%Z) (Some 2000%Z) ;;
  _ <- page_call env "add_init_script" (AddInitScript "hasOwnProperty") ;;
  _human_delay env cfg (Some 1000%Z) (Some 2000%Z) ;;
  _ <- page_evaluate env "getContext.getParameter" ;;
  log "info" "Browser context setup completed successfully" ;;
  ret true.

(** Lines 334-471: the [finally] block ends in [return True]. *)
Definition start_workflow_L334 (email password center : string) : M bool :=
  try_finally_return
    (try_except (start_workflow_L334_try email password center)
       (fun e => log "error" ("Failed to setup browser context: " ++ exn_msg e) ;;
                 ret false))
    (_human_delay env cfg (Some 500%Z) (Some 1000%Z) ;; ret true).

End ClassWorkflow.

(** A title query that the driver answers from the document. *)
Definition title_by_script (env : Env) : M PyVal :=
  page_call env "title" (Evaluate "document.title").

(** *** Vocabulary of the further properties *)

(** Every run of [m] ends in an outcome and a world that [P] accepts. *)
Definition ends_in {A} (P : Outcome A -> World -> Prop) (m : M A) : Prop :=
  forall w, P (m w).1 (m w).2.

(** [m] leaves the observation [f] of the world as it found it. *)
Definition keeps {A X} (f : World -> X) (m : M A) : Prop :=
  forall w, f (m w).2 = f w.

Definition comes_back {A} (o : Outcome A) (_ : World) : Prop := o <> Diverge.


Definition returned {A} (o : Outcome A) (_ : World) : Prop := exists a, o = Ret a.

(** The driver calls of a trace, in the order they were issued. *)
Fixpoint calls_in (tr : list Event) : list Call :=
  match tr with
  | [] => []
  | EvCall c :: tr' => c :: calls_in tr'
  | _ :: tr' => calls_in tr'
  end.

(** The lines logged in a trace, with their levels. *)
Fixpoint logs_in (tr : list Event) : list (string * string) :=
  match tr with
  | [] => []
  | EvLog level msg :: tr' => (level, msg) :: logs_in tr'
  | _ :: tr' => logs_in tr'
  end.

(** An observation of the world that does not look at the clock, the random
    generator, the ledger, or the events of the trace that are not driver
    calls. *)
Class Steady {X} (f : World -> X) : Prop := {
  steady_clock : forall n w, f (set_clock n w) = f w;
  steady_draws : forall n w, f (set_draws n w) = f w;
  steady_history : forall h w, f (set_account_history h w) = f w;
  steady_events : forall evs w, calls_in evs = [] -> f (emit evs w) = f w
}.

(** What a login attempt does to [self.logged_in]: the flag is set when the
    attempt answers [True] and left alone when it fails. *)
Definition flags_success (m : M bool) : Prop :=
  forall w,
    match (m w).1 with
    | Ret b => b = true /\ logged_in (m w).2 = true
    | Raise _ => logged_in (m w).2 = logged_in w
    | Diverge => False
    end.

(** The last status of [email] in the ledger matches the answer [b] of a
    workflow: BOOKED for [True], one of the failure statuses of lines
    808-868 for [False]. *)
Definition result_recorded (email : string) (b : bool) (w : World) : Prop :=
  exists st,
    last (recorded_statuses w email) = Some st /\
    if b then st = AccountStatus.BOOKED
    else In st [ AccountStatus.FAILED; AccountStatus.CALENDAR_ERROR;
                 AccountStatus.BOOKING_FAILED ].

(** How a stage of the workflow of lines 808-868 may end: with an answer
    that the ledger matches; by falling through to the next stage, where
    [fall] allows it; with an exception, where [fail] allows it. *)
Definition stage_ends (email : string) (fall fail : bool)
           (o : Outcome (option bool)) (w : World) : Prop :=
  match o with
  | Ret (Some b) => result_recorded email b w
  | Ret None => fall = true
  | Raise _ => fail = true
  | Diverge => False
  end.


(** A driver before which a challenge is detected on every selector and
    never goes away: each wait for the challenge to hide times out. *)
Definition stuck_challenge_env : Env :=
  mkEnv demo_now (fun _ k => demo_now k) (fun _ => 50)
    (fun c _ =>
       match c with
       | WaitForSelector _ (Some _) _ => Err timeout_error
       | _ => Ok (VElem 5)
       end).

(** * Properties *)

(** ** The ledger *)

Section Ledger.

Context (env : Env).

Lemma update_account_status_run email status details w :
  update_account_status env email status details w =
  (Ret tt,
   let prev := account_history w !! email in
   let h := <[email := next_record env prev (clock w) status details (step_label w)]>
              (account_history w) in
   mkWorld (browser w) (page w) (current_account w) (logged_in w) (current_step w)
           h (next_clock prev (clock w)) (draws w)
           (trace w ++ [EvWriteHistory h;
                        EvLog "info" ("Account " ++ email ++ " status updated to "
                                      ++ status ++ ": " ++ details)])).
Proof.
  destruct w as [b p ca li cs h c d tr].
  cbv [update_account_status bind get modify log now_iso ret emit set_clock
       set_account_history step_label next_record next_clock
       browser page current_account logged_in current_step account_history
       clock draws trace].
  destruct (h !! email) as [a|]; rewrite <- ?app_assoc; reflexivity.
Qed.

Lemma update_returns email status details w :
  (update_account_status env email status details w).1 = Ret tt.
Proof. now rewrite update_account_status_run. Qed.

Lemma lookup_after_update email status details w :
  account_history (update_account_status env email status details w).2 !! email =
  Some (next_record env (account_history w !! email) (clock w) status details
          (step_label w)).
Proof. rewrite update_account_status_run; simpl. apply lookup_insert_eq. Qed.

Lemma lookup_after_update_ne email email' status details w :
  email <> email' ->
  account_history (update_account_status env email status details w).2 !! email' =
  account_history w !! email'.
Proof. intros Hne. rewrite update_account_status_run; simpl. now apply lookup_insert_ne. Qed.

Lemma clock_after_update email status details w :
  clock (update_account_status env email status details w).2 =
  next_clock (account_history w !! email) (clock w).
Proof. now rewrite update_account_status_run. Qed.

(** The fields of the record in terms of the previous one. *)
Ltac by_cases_on_status :=
  cbv beta iota delta [next_record next_clock touch append_entry track_outcome
                       bump error_statuses];
  match goal with
  | prev : option AccountRecord |- _ => destruct prev as [[? ? ? ? ? ?]|]
  end;
  (destruct (String.eqb _ AccountStatus.BOOKED);
   [| destruct (existsb _ _)]);
  simpl; rewrite ?Nat.add_1_r; reflexivity.

Lemma next_record_history prev c st details label :
  history (next_record env prev c st details label) =
  (from_option history [] prev ++
   [mkEntry (now env (pred (pred (next_clock prev c)))) st details label
      (S (from_option total_attempts 0 prev))])%list.
Proof. by_cases_on_status. Qed.

Lemma next_record_total_attempts prev c st details label :
  total_attempts (next_record env prev c st details label) =
  S (from_option total_attempts 0 prev).
Proof. by_cases_on_status. Qed.

Lemma next_record_last_updated prev c st details label :
  last_updated (next_record env prev c st details label) =
  now env (pred (next_clock prev c)).
Proof. by_cases_on_status. Qed.

Lemma next_record_success prev c st details label :
  success (next_record env prev c st details label) =
  String.eqb st AccountStatus.BOOKED || from_option success false prev.
Proof. by_cases_on_status. Qed.

Lemma next_record_last_error prev c st details label :
  last_error (next_record env prev c st details label) =
  if negb (String.eqb st AccountStatus.BOOKED)
     && existsb (String.eqb st) error_statuses
  then Some details
  else prev ≫= last_error.
Proof. by_cases_on_status. Qed.

Lemma next_record_status prev c st details label :
  status (next_record env prev c st details label) = st.
Proof. by_cases_on_status. Qed.

End Ledger.

(** ** Sequences of recorded statuses *)

Section LedgerSequences.

Context (env : Env).


Lemma statuses_for_app email ops1 ops2 :
  statuses_for email (ops1 ++ ops2)%list =
  (statuses_for email ops1 ++ statuses_for email ops2)%list.
Proof.
  induction ops1 as [|[n|e st d] ops1 IH]; simpl; auto.
  destruct (String.eqb e email); simpl; now rewrite IH.
Qed.

(** One operation moves the invariant by one when it records for [email]
    and leaves it alone otherwise. *)
Lemma ledger_inv_step email n w op :
  ledger_inv email n w ->
  ledger_inv email (n + length (statuses_for email [op])) (run_op env w op).
Proof.
  intros Hinv. destruct op as [k|e st d]; simpl.
  - rewrite Nat.add_0_r. exact Hinv.
  - destruct (String.eqb_spec e email) as [->|Hne]; simpl.
    + unfold ledger_inv in *. rewrite lookup_after_update.
      rewrite next_record_history, next_record_total_attempts.
      rewrite length_app, map_app; simpl.
      rewrite Nat.add_1_r, seq_S; simpl.
      destruct (account_history w !! email) as [a|]; simpl.
      * destruct Hinv as (Hpos & Hlen & Htot & Hseq).
        rewrite Hlen, Htot, Hseq. repeat split; auto; lia.
      * subst n. repeat split; auto.
    + rewrite Nat.add_0_r. unfold ledger_inv in *.
      now rewrite lookup_after_update_ne.
Qed.

Lemma ledger_inv_run email ops : forall n w,
  ledger_inv email n w ->
  ledger_inv email (n + length (statuses_for email ops)) (run_ops env ops w).
Proof.
  induction ops as [|op ops IH]; intros n w Hinv.
  - simpl. now rewrite Nat.add_0_r.
  - apply (ledger_inv_step email n w op) in Hinv.
    apply IH in Hinv.
    change (op :: ops) with ([op] ++ ops)%list.
    rewrite statuses_for_app, length_app, Nat.add_assoc. exact Hinv.
Qed.



(** The entry appended by a call carries the clock reading taken just
    before the one that stamps [last_updated]: the two are separate reads. *)
Lemma entry_timestamp_is_earlier_read email st d w :
  let w' := (update_account_status env email st d w).2 in
  timestamp <$> last (history_of w' email) = Some (now env (pred (pred (clock w')))) /\
  last_updated <$> (account_history w' !! email) = Some (now env (pred (clock w'))).
Proof.
  simpl. unfold history_of. rewrite lookup_after_update, clock_after_update.
  simpl. rewrite next_record_history, next_record_last_updated, last_snoc. auto.
Qed.

(** C9. The entry appended by a call carries the label of the engine's
    current step when the step index is within the step table, and
    "Unknown" when it is not. *)
Theorem entry_step_label email st d w :
  let w' := (update_account_status env email st d w).2 in
  exists e, last (history_of w' email) = Some e /\
    (current_step w < length steps -> steps !! current_step w = Some (step e)) /\
    (length steps <= current_step w -> step e = "Unknown").
Proof.
  cbv zeta. unfold history_of. rewrite lookup_after_update, next_record_history.
  rewrite last_snoc. eexists; split; [reflexivity|].
  cbn [step]. unfold step_label.
  destruct (Nat.ltb_spec (current_step w) (length steps)) as [Hlt|Hge].
  - split; intros Hi; [|lia].
    destruct (nth_lookup_or_length steps (current_step w) EmptyString); [assumption|lia].
  - split; intros Hi; [lia|reflexivity].
Qed.

Lemma booked_is_no_error_status st :
  String.eqb st AccountStatus.BOOKED = true ->
  existsb (String.eqb st) error_statuses = false.
Proof. intros H. apply String.eqb_eq in H. now subst st. Qed.

(** C7, as the code has it. A call stores its detail text in [last_error]
    exactly when its status is LOGIN FAILED, FAILED, BOOKING FAILED or
    CALENDAR ERROR, and leaves [last_error] as it was for every other status
    (CLOUDFLARE BLOCKED, SESSION EXPIRED, NETWORK ERROR and SITE MAINTENANCE
    among them); [success] becomes true only for BOOKED and otherwise keeps
    its value. *)
Theorem last_error_and_success_rule email st d w :
  let prev := account_history w !! email in
  let w' := (update_account_status env email st d w).2 in
  exists a, account_history w' !! email = Some a /\
    last_error a = (if existsb (String.eqb st) error_statuses then Some d
                    else prev ≫= last_error) /\
    success a = (String.eqb st AccountStatus.BOOKED || from_option success false prev).
Proof.
  cbv zeta. rewrite lookup_after_update. eexists; split; [reflexivity|].
  rewrite next_record_last_error, next_record_success. split; [|reflexivity].
  destruct (String.eqb st AccountStatus.BOOKED) eqn:Hb; cbn [negb andb];
    [|reflexivity].
  now rewrite booked_is_no_error_status.
Qed.

(** The flag after a sequence is the flag before it, or BOOKED was recorded. *)
Lemma success_after_run email ops : forall w,
  success_of (run_ops env ops w) email =
  success_of w email || existsb (String.eqb AccountStatus.BOOKED) (statuses_for email ops).
Proof.
  induction ops as [|[k|e st d] ops IH]; intros w.
  - simpl. now rewrite orb_false_r.
  - change (run_ops env (OpStep k :: ops) w)
      with (run_ops env ops (set_current_step k w)).
    now rewrite IH.
  - change (run_ops env (OpUpdate e st d :: ops) w)
      with (run_ops env ops (update_account_status env e st d w).2).
    rewrite IH. cbn [statuses_for].
    destruct (String.eqb_spec e email) as [->|Hne].
    + cbn [existsb]. unfold success_of at 1.
      rewrite lookup_after_update, next_record_success.
      rewrite (String.eqb_sym AccountStatus.BOOKED st).
      replace (from_option success false (account_history w !! email))
        with (success_of w email)
        by (unfold success_of; now destruct (account_history w !! email)).
      destruct (String.eqb st AccountStatus.BOOKED), (success_of w email);
        reflexivity.
    + unfold success_of at 1 2. now rewrite lookup_after_update_ne.
Qed.

Lemma last_terminal_in sts t : last_terminal sts = Some t -> In t sts.
Proof.
  induction sts as [|s sts IH]; simpl; [discriminate|].
  destruct (last_terminal sts) as [t'|].
  - intros [= ->]. right. now apply IH.
  - destruct (is_terminal s); [intros [= ->]; now left | discriminate].
Qed.

Lemma existsb_eqb_in s sts :
  existsb (String.eqb s) sts = true <-> In s sts.
Proof.
  rewrite existsb_exists. split.
  - intros (x & Hin & Heq). apply String.eqb_eq in Heq. now subst.
  - intros Hin. exists s. split; [assumption | apply String.eqb_refl].
Qed.

(** C6, as the code has it. Starting from a ledger that does not know the
    identity, the success flag is true exactly when BOOKED is among the
    statuses recorded for the identity; it is therefore true whenever the
    most recent terminal status is BOOKED, and once true it stays true
    whatever is recorded afterwards. *)
Theorem success_flag_is_sticky email ops w :
  account_history w !! email = None ->
  let w' := run_ops env ops w in
  (success_of w' email = true <-> In AccountStatus.BOOKED (statuses_for email ops)) /\
  (last_terminal (statuses_for email ops) = Some AccountStatus.BOOKED ->
   success_of w' email = true) /\
  (forall more, success_of w' email = true ->
                success_of (run_ops env more w') email = true).
Proof.
  intros Hfresh w'.
  assert (Hiff : success_of w' email = true <->
                 In AccountStatus.BOOKED (statuses_for email ops)).
  { subst w'. rewrite success_after_run. unfold success_of at 1.
    rewrite Hfresh. cbn [orb]. apply existsb_eqb_in. }
  split; [exact Hiff|]. split.
  - intros Hlast. apply Hiff. now apply last_terminal_in.
  - intros more Htrue. rewrite success_after_run, Htrue. reflexivity.
Qed.

End LedgerSequences.

(** *** The ledger on concrete sequences *)

Definition sample_ops : list LedgerOp :=
  [ OpUpdate "a@x.com" AccountStatus.INIT "Starting workflow - Initialize Bot";
    OpStep 2;
    OpUpdate "b@x.com" AccountStatus.INIT "Starting workflow - Initialize Bot";
    OpUpdate "a@x.com" AccountStatus.LOGIN_FAILED "Failed to authenticate";
    OpStep 3 ].


(** With a clock that advances between reads, the final entry's timestamp
    and [last_updated] differ. *)
Example entry_timestamp_differs :
  let w' := run_ops demo_env sample_ops init_world in
  timestamp <$> last (history_of w' "a@x.com") = Some "T6" /\
  last_updated <$> (account_history w' !! "a@x.com") = Some "T7".
Proof. vm_compute. split; reflexivity. Qed.

(** C7 fails as stated: NETWORK ERROR classifies a failure in the taxonomy,
    yet recording it with a detail text leaves [last_error] unset. *)
Lemma network_error_leaves_last_error_unset :
  In AccountStatus.NETWORK_ERROR spec_failure_statuses /\
  last_error <$>
    (account_history
       (update_account_status demo_env "a@x.com" AccountStatus.NETWORK_ERROR
          "net::ERR_CONNECTION_RESET" init_world).2 !! "a@x.com") = Some None.
Proof. split; [simpl; tauto | vm_compute; reflexivity]. Qed.

(** C6 fails as stated: after BOOKED then LOGIN FAILED the most recent
    terminal status is LOGIN FAILED and the flag is still true. *)
Lemma success_survives_later_failure :
  let ops := [ OpUpdate "a@x.com" AccountStatus.BOOKED EmptyString;
               OpUpdate "a@x.com" AccountStatus.LOGIN_FAILED "Failed to authenticate" ] in
  success_of (run_ops demo_env ops init_world) "a@x.com" = true /\
  last_terminal (statuses_for "a@x.com" ops) = Some AccountStatus.LOGIN_FAILED.
Proof. vm_compute. split; reflexivity. Qed.

Lemma success_flag_is_sticky_witness :
  let ops := [ OpUpdate "a@x.com" AccountStatus.INIT "Starting workflow - Initialize Bot";
               OpUpdate "a@x.com" AccountStatus.BOOKED EmptyString ] in
  success_of (run_ops demo_env ops init_world) "a@x.com" = true.
Proof.
  apply (success_flag_is_sticky demo_env "a@x.com" _ init_world eq_refl).
  reflexivity.
Defined.

(** ** Running the primitives *)

Section Effects.

Context (env : Env) (cfg : TLSConfig).

Lemma calls_of_app c tr1 tr2 :
  calls_of c (tr1 ++ tr2)%list = calls_of c tr1 + calls_of c tr2.
Proof.
  induction tr1 as [|[c'| | | |] tr1 IH]; simpl; auto.
  rewrite IH. lia.
Qed.

Lemma alerts_app tr1 tr2 : alerts (tr1 ++ tr2)%list = (alerts tr1 ++ alerts tr2)%list.
Proof. apply List.filter_app. Qed.

Lemma gotos_app tr1 tr2 : gotos (tr1 ++ tr2)%list = (gotos tr1 ++ gotos tr2)%list.
Proof. apply List.filter_app. Qed.

Lemma issue_run c w :
  issue env c w =
  (match driver env c (calls_of c (trace w)) with
   | Ok v => Ret v
   | Err e => Raise e
   end, emit [EvCall c] w).
Proof. unfold issue. now destruct (driver env c _). Qed.

Lemma page_call_open meth c w p :
  page w = Some p -> page_call env meth c w = issue env c w.
Proof. intros Hp. unfold page_call, bind, get. now rewrite Hp. Qed.

Lemma page_call_closed meth c w :
  page w = None ->
  page_call env meth c w =
  (Raise (AttributeError ("'NoneType' object has no attribute '" ++ meth ++ "'")), w).
Proof. intros Hp. unfold page_call, bind, get. now rewrite Hp. Qed.

(** A delay with both bounds given and non-zero only draws and sleeps. *)
Lemma human_delay_run lo hi w :
  lo <> 0%Z -> hi <> 0%Z ->
  _human_delay env cfg (Some lo) (Some hi) w =
  (Ret tt, emit [EvSleep lo hi] (set_draws (S (draws w)) w)).
Proof.
  intros Hlo Hhi. unfold _human_delay.
  apply Z.eqb_neq in Hlo, Hhi. rewrite Hlo, Hhi. reflexivity.
Qed.

Lemma recorded_statuses_update email st d w :
  recorded_statuses (update_account_status env email st d w).2 email =
  (recorded_statuses w email ++ [st])%list.
Proof.
  unfold recorded_statuses, history_of. rewrite lookup_after_update.
  rewrite next_record_history, map_app. simpl.
  now destruct (account_history w !! email).
Qed.

Lemma calls_of_one_same c : calls_of c [EvCall c] = 1.
Proof. simpl. now rewrite decide_True. Qed.

Lemma calls_of_one_other c c' : c' <> c -> calls_of c [EvCall c'] = 0.
Proof. intros H. simpl. now rewrite decide_False. Qed.

(** [update_account_status] always returns, and touches nothing but the
    ledger, the clock and the trace, where it leaves a file write and a log
    line. *)
Lemma update_run email st d w :
  update_account_status env email st d w = (Ret tt, record_status env email st d w).
Proof. unfold record_status. now rewrite update_account_status_run. Qed.

Lemma record_status_page email st d w :
  page (record_status env email st d w) = page w.
Proof. unfold record_status. now rewrite update_account_status_run. Qed.

Lemma record_status_browser email st d w :
  browser (record_status env email st d w) = browser w.
Proof. unfold record_status. now rewrite update_account_status_run. Qed.

Lemma record_status_current_step email st d w :
  current_step (record_status env email st d w) = current_step w.
Proof. unfold record_status. now rewrite update_account_status_run. Qed.

Lemma record_status_current_account email st d w :
  current_account (record_status env email st d w) = current_account w.
Proof. unfold record_status. now rewrite update_account_status_run. Qed.

Lemma record_status_draws email st d w :
  draws (record_status env email st d w) = draws w.
Proof. unfold record_status. now rewrite update_account_status_run. Qed.

Lemma record_status_calls c email st d w :
  calls_of c (trace (record_status env email st d w)) = calls_of c (trace w).
Proof.
  unfold record_status. rewrite update_account_status_run. simpl.
  rewrite calls_of_app. simpl. lia.
Qed.

Lemma record_status_alerts email st d w :
  alerts (trace (record_status env email st d w)) = alerts (trace w).
Proof.
  unfold record_status. rewrite update_account_status_run. simpl.
  rewrite alerts_app. simpl. apply app_nil_r.
Qed.

Lemma record_status_gotos email st d w :
  gotos (trace (record_status env email st d w)) = gotos (trace w).
Proof.
  unfold record_status. rewrite update_account_status_run. simpl.
  rewrite gotos_app. simpl. apply app_nil_r.
Qed.

Lemma record_status_statuses email st d w :
  recorded_statuses (record_status env email st d w) email =
  (recorded_statuses w email ++ [st])%list.
Proof. apply recorded_statuses_update. Qed.

End Effects.

(** Projections of a world built by the setters, and the calls counted in
    the events they add. *)
Ltac count_calls :=
  repeat first
    [ progress cbn [trace page browser draws clock current_step emit set_draws
                    set_clock set_current_step set_account_history
                    set_logged_in set_page set_browser set_current_account]
    | rewrite calls_of_app
    | rewrite record_status_calls
    | rewrite calls_of_one_same
    | rewrite calls_of_one_other by discriminate ];
  cbn [calls_of];
  rewrite ?Nat.add_0_r.

(** ** The login-form retry loops *)

Section Retry.
Context (env : Env) (cfg : TLSConfig).

(** One round of the loop of lines 347-356 whose check succeeds. *)
Lemma found_round_L345 fuel M rc w p v :
  page w = Some p -> rc < M ->
  driver env form_check (calls_of form_check (trace w)) = Ok v ->
  exists w1,
    login_form_loop_L345 env cfg (S fuel) M rc w = (Ret tt, w1) /\
    calls_of form_check (trace w1) = S (calls_of form_check (trace w)) /\
    calls_of Reload (trace w1) = calls_of Reload (trace w).
Proof.
  intros Hp Hlt Hcheck. cbn [login_form_loop_L345].
  apply Nat.ltb_lt in Hlt. rewrite Hlt.
  unfold bind at 1, try_except at 1, bind at 1, page_wait_for_selector.
  rewrite (page_call_open env _ _ w p Hp), issue_run.
  fold form_check. rewrite Hcheck. cbn [ret].
  eexists. split; [reflexivity|]. split; count_calls; lia.
Qed.

(** A round whose check fails with attempts left: delay, reload, again. *)
Lemma failed_round_L345 fuel M rc w p e v :
  page w = Some p -> rc + 1 < M ->
  driver env form_check (calls_of form_check (trace w)) = Err e ->
  driver env Reload (calls_of Reload (trace w)) = Ok v ->
  exists w1,
    login_form_loop_L345 env cfg (S fuel) M rc w =
    login_form_loop_L345 env cfg fuel M (rc + 1) w1 /\
    page w1 = Some p /\
    calls_of form_check (trace w1) = S (calls_of form_check (trace w)) /\
    calls_of Reload (trace w1) = S (calls_of Reload (trace w)).
Proof.
  intros Hp Hlt Hcheck Hreload.
  cbn [login_form_loop_L345].
  assert (Hb : (rc <? M)%nat = true) by (apply Nat.ltb_lt; lia).
  assert (Hn : (rc + 1 =? M)%nat = false) by (apply Nat.eqb_neq; lia).
  rewrite Hb.
  unfold bind at 1, try_except at 1, bind at 1, page_wait_for_selector.
  rewrite (page_call_open env _ _ w p Hp), issue_run.
  fold form_check. rewrite Hcheck, Hn.
  unfold bind at 1. rewrite human_delay_run by lia.
  unfold bind at 1, page_reload.
  erewrite page_call_open by (simpl; exact Hp). rewrite issue_run.
  count_calls. rewrite Hreload. cbn [ret].
  eexists. split; [reflexivity|]. split; [exact Hp|].
  split; count_calls; lia.
Qed.

(** The round that uses up the attempts. *)
Lemma last_round_L345 fuel M rc w p e :
  page w = Some p -> rc + 1 = M ->
  driver env form_check (calls_of form_check (trace w)) = Err e ->
  exists w1,
    login_form_loop_L345 env cfg (S fuel) M rc w = (Raise login_form_not_found, w1) /\
    calls_of form_check (trace w1) = S (calls_of form_check (trace w)) /\
    calls_of Reload (trace w1) = calls_of Reload (trace w).
Proof.
  intros Hp Heq Hcheck. cbn [login_form_loop_L345].
  assert (Hb : (rc <? M)%nat = true) by (apply Nat.ltb_lt; lia).
  assert (Hn : (rc + 1 =? M)%nat = true) by (apply Nat.eqb_eq; lia).
  rewrite Hb.
  unfold bind at 1, try_except at 1, bind at 1, page_wait_for_selector.
  rewrite (page_call_open env _ _ w p Hp), issue_run.
  fold form_check. rewrite Hcheck, Hn. cbn [raise].
  eexists. split; [reflexivity|]. split; count_calls; lia.
Qed.

Lemma loop_L345_finds j : forall fuel M rc w p,
  page w = Some p -> rc + j < M -> j < fuel ->
  (forall k, k < j -> exists e, driver env form_check (calls_of form_check (trace w) + k) = Err e) ->
  (exists v, driver env form_check (calls_of form_check (trace w) + j) = Ok v) ->
  (forall k, k < j -> exists v, driver env Reload (calls_of Reload (trace w) + k) = Ok v) ->
  exists w',
    login_form_loop_L345 env cfg fuel M rc w = (Ret tt, w') /\
    calls_of form_check (trace w') = calls_of form_check (trace w) + j + 1.
Proof.
  induction j as [|j IH]; intros fuel M rc w p Hp Hlt Hfuel Hfail [v Hok] Hreload;
    (destruct fuel as [|fuel]; [lia|]).
  - rewrite Nat.add_0_r in Hok.
    destruct (found_round_L345 fuel M rc w p v Hp ltac:(lia) Hok) as (w1 & Hrun & Hn & _).
    exists w1. split; [exact Hrun | lia].
  - destruct (Hfail 0 ltac:(lia)) as [e He]. rewrite Nat.add_0_r in He.
    destruct (Hreload 0 ltac:(lia)) as [v0 Hv0]. rewrite Nat.add_0_r in Hv0.
    destruct (failed_round_L345 fuel M rc w p e v0 Hp ltac:(lia) He Hv0)
      as (w1 & Hrun & Hp1 & Hn1 & Hr1).
    destruct (IH fuel M (rc + 1) w1 p Hp1 ltac:(lia) ltac:(lia)) as (w' & Hrun' & Hn').
    + intros k Hk. rewrite Hn1. destruct (Hfail (S k) ltac:(lia)) as [e' He'].
      exists e'. rewrite <- He'. f_equal. lia.
    + exists v. rewrite Hn1, <- Hok. f_equal. lia.
    + intros k Hk. rewrite Hr1. destruct (Hreload (S k) ltac:(lia)) as [v' Hv'].
      exists v'. rewrite <- Hv'. f_equal. lia.
    + exists w'. split; [now rewrite Hrun | lia].
Qed.

Lemma loop_L345_gives_up j : forall fuel M rc w p,
  page w = Some p -> rc + S j = M -> j < fuel ->
  (forall k, k <= j -> exists e, driver env form_check (calls_of form_check (trace w) + k) = Err e) ->
  (forall k, k < j -> exists v, driver env Reload (calls_of Reload (trace w) + k) = Ok v) ->
  exists w',
    login_form_loop_L345 env cfg fuel M rc w = (Raise login_form_not_found, w') /\
    calls_of form_check (trace w') = calls_of form_check (trace w) + j + 1.
Proof.
  induction j as [|j IH]; intros fuel M rc w p Hp Hlt Hfuel Hfail Hreload;
    (destruct fuel as [|fuel]; [lia|]).
  - destruct (Hfail 0 ltac:(lia)) as [e He]. rewrite Nat.add_0_r in He.
    destruct (last_round_L345 fuel M rc w p e Hp ltac:(lia) He) as (w1 & Hrun & Hn & _).
    exists w1. split; [exact Hrun | lia].
  - destruct (Hfail 0 ltac:(lia)) as [e He]. rewrite Nat.add_0_r in He.
    destruct (Hreload 0 ltac:(lia)) as [v0 Hv0]. rewrite Nat.add_0_r in Hv0.
    destruct (failed_round_L345 fuel M rc w p e v0 Hp ltac:(lia) He Hv0)
      as (w1 & Hrun & Hp1 & Hn1 & Hr1).
    destruct (IH fuel M (rc + 1) w1 p Hp1 ltac:(lia) ltac:(lia)) as (w' & Hrun' & Hn').
    + intros k Hk. rewrite Hn1. destruct (Hfail (S k) ltac:(lia)) as [e' He'].
      exists e'. rewrite <- He'. f_equal. lia.
    + intros k Hk. rewrite Hr1. destruct (Hreload (S k) ltac:(lia)) as [v' Hv'].
      exists v'. rewrite <- Hv'. f_equal. lia.
    + exists w'. split; [now rewrite Hrun | lia].
Qed.


(** The same rounds for the loop of lines 1155-1171, which also records
    what it does in the ledger. *)
Lemma found_round fuel M rc email w p v :
  page w = Some p -> rc < M ->
  driver env form_check (calls_of form_check (trace w)) = Ok v ->
  exists w1,
    login_form_loop env cfg email (S fuel) M rc w = (Ret tt, w1) /\
    calls_of form_check (trace w1) = S (calls_of form_check (trace w)) /\
    recorded_statuses w1 email =
    (recorded_statuses w email ++ [AccountStatus.INIT])%list.
Proof.
  intros Hp Hlt Hcheck. cbn [login_form_loop].
  apply Nat.ltb_lt in Hlt. rewrite Hlt.
  unfold bind at 1, try_except at 1, bind at 1, page_wait_for_selector.
  rewrite (page_call_open env _ _ w p Hp), issue_run.
  fold form_check. rewrite Hcheck.
  unfold bind at 1, get at 1. unfold bind at 1. rewrite update_run. cbn [ret].
  eexists. split; [reflexivity|]. split.
  - count_calls. lia.
  - now rewrite record_status_statuses.
Qed.

Lemma failed_round fuel M rc email w p e v :
  page w = Some p -> rc + 1 < M ->
  driver env form_check (calls_of form_check (trace w)) = Err e ->
  driver env Reload (calls_of Reload (trace w)) = Ok v ->
  exists w1,
    login_form_loop env cfg email (S fuel) M rc w =
    login_form_loop env cfg email fuel M (rc + 1) w1 /\
    page w1 = Some p /\
    calls_of form_check (trace w1) = S (calls_of form_check (trace w)) /\
    calls_of Reload (trace w1) = S (calls_of Reload (trace w)) /\
    recorded_statuses w1 email =
    (recorded_statuses w email ++ [AccountStatus.INIT])%list.
Proof.
  intros Hp Hlt Hcheck Hreload.
  cbn [login_form_loop].
  assert (Hb : (rc <? M)%nat = true) by (apply Nat.ltb_lt; lia).
  assert (Hn : (rc + 1 =? M)%nat = false) by (apply Nat.eqb_neq; lia).
  rewrite Hb.
  unfold bind at 1, try_except at 1, bind at 1, page_wait_for_selector.
  rewrite (page_call_open env _ _ w p Hp), issue_run.
  fold form_check. rewrite Hcheck.
  unfold bind at 1, get at 1. rewrite Hn.
  unfold bind at 1. rewrite update_run.
  unfold bind at 1. rewrite human_delay_run by lia.
  unfold bind at 1, page_reload.
  erewrite page_call_open
    by (cbn [page emit set_draws]; rewrite record_status_page; exact Hp).
  rewrite issue_run.
  count_calls. rewrite Hreload. cbn [ret].
  eexists. split; [reflexivity|].
  split; [cbn [page emit set_draws]; rewrite record_status_page; exact Hp|].
  split; [count_calls; lia|]. split; [count_calls; lia|].
  unfold recorded_statuses, history_of.
  cbn [account_history emit set_draws].
  apply (record_status_statuses env email AccountStatus.INIT).
Qed.

Lemma last_round fuel M rc email w p e :
  page w = Some p -> rc + 1 = M ->
  driver env form_check (calls_of form_check (trace w)) = Err e ->
  exists w1,
    login_form_loop env cfg email (S fuel) M rc w = (Raise login_form_not_found, w1) /\
    calls_of form_check (trace w1) = S (calls_of form_check (trace w)) /\
    recorded_statuses w1 email =
    (recorded_statuses w email ++ [AccountStatus.LOGIN_FAILED])%list.
Proof.
  intros Hp Heq Hcheck. cbn [login_form_loop].
  assert (Hb : (rc <? M)%nat = true) by (apply Nat.ltb_lt; lia).
  assert (Hn : (rc + 1 =? M)%nat = true) by (apply Nat.eqb_eq; lia).
  rewrite Hb.
  unfold bind at 1, try_except at 1, bind at 1, page_wait_for_selector.
  rewrite (page_call_open env _ _ w p Hp), issue_run.
  fold form_check. rewrite Hcheck.
  unfold bind at 1, get at 1. rewrite Hn.
  unfold bind at 1. rewrite update_run. cbn [raise].
  eexists. split; [reflexivity|]. split; [count_calls; lia|].
  now rewrite record_status_statuses.
Qed.

Lemma loop_finds j : forall fuel M rc email w p,
  page w = Some p -> rc + j < M -> j < fuel ->
  (forall k, k < j -> exists e, driver env form_check (calls_of form_check (trace w) + k) = Err e) ->
  (exists v, driver env form_check (calls_of form_check (trace w) + j) = Ok v) ->
  (forall k, k < j -> exists v, driver env Reload (calls_of Reload (trace w) + k) = Ok v) ->
  exists w',
    login_form_loop env cfg email fuel M rc w = (Ret tt, w') /\
    calls_of form_check (trace w') = calls_of form_check (trace w) + j + 1 /\
    recorded_statuses w' email =
    (recorded_statuses w email ++ repeat AccountStatus.INIT (j + 1))%list.
Proof.
  induction j as [|j IH]; intros fuel M rc email w p Hp Hlt Hfuel Hfail [v Hok] Hreload;
    (destruct fuel as [|fuel]; [lia|]).
  - rewrite Nat.add_0_r in Hok.
    destruct (found_round fuel M rc email w p v Hp ltac:(lia) Hok) as (w1 & Hrun & Hn & Hs).
    exists w1. split; [exact Hrun|]. split; [lia | exact Hs].
  - destruct (Hfail 0 ltac:(lia)) as [e He]. rewrite Nat.add_0_r in He.
    destruct (Hreload 0 ltac:(lia)) as [v0 Hv0]. rewrite Nat.add_0_r in Hv0.
    destruct (failed_round fuel M rc email w p e v0 Hp ltac:(lia) He Hv0)
      as (w1 & Hrun & Hp1 & Hn1 & Hr1 & Hs1).
    destruct (IH fuel M (rc + 1) email w1 p Hp1 ltac:(lia) ltac:(lia))
      as (w' & Hrun' & Hn' & Hs').
    + intros k Hk. rewrite Hn1. destruct (Hfail (S k) ltac:(lia)) as [e' He'].
      exists e'. rewrite <- He'. f_equal. lia.
    + exists v. rewrite Hn1, <- Hok. f_equal. lia.
    + intros k Hk. rewrite Hr1. destruct (Hreload (S k) ltac:(lia)) as [v' Hv'].
      exists v'. rewrite <- Hv'. f_equal. lia.
    + exists w'. split; [now rewrite Hrun|]. split; [lia|].
      rewrite Hs', Hs1, <- app_assoc. reflexivity.
Qed.

Lemma loop_gives_up j : forall fuel M rc email w p,
  page w = Some p -> rc + S j = M -> j < fuel ->
  (forall k, k <= j -> exists e, driver env form_check (calls_of form_check (trace w) + k) = Err e) ->
  (forall k, k < j -> exists v, driver env Reload (calls_of Reload (trace w) + k) = Ok v) ->
  exists w',
    login_form_loop env cfg email fuel M rc w = (Raise login_form_not_found, w') /\
    calls_of form_check (trace w') = calls_of form_check (trace w) + j + 1 /\
    recorded_statuses w' email =
    (recorded_statuses w email ++ repeat AccountStatus.INIT j
       ++ [AccountStatus.LOGIN_FAILED])%list.
Proof.
  induction j as [|j IH]; intros fuel M rc email w p Hp Hlt Hfuel Hfail Hreload;
    (destruct fuel as [|fuel]; [lia|]).
  - destruct (Hfail 0 ltac:(lia)) as [e He]. rewrite Nat.add_0_r in He.
    destruct (last_round fuel M rc email w p e Hp ltac:(lia) He) as (w1 & Hrun & Hn & Hs).
    exists w1. split; [exact Hrun|]. split; [lia | exact Hs].
  - destruct (Hfail 0 ltac:(lia)) as [e He]. rewrite Nat.add_0_r in He.
    destruct (Hreload 0 ltac:(lia)) as [v0 Hv0]. rewrite Nat.add_0_r in Hv0.
    destruct (failed_round fuel M rc email w p e v0 Hp ltac:(lia) He Hv0)
      as (w1 & Hrun & Hp1 & Hn1 & Hr1 & Hs1).
    destruct (IH fuel M (rc + 1) email w1 p Hp1 ltac:(lia) ltac:(lia))
      as (w' & Hrun' & Hn' & Hs').
    + intros k Hk. rewrite Hn1. destruct (Hfail (S k) ltac:(lia)) as [e' He'].
      exists e'. rewrite <- He'. f_equal. lia.
    + intros k Hk. rewrite Hr1. destruct (Hreload (S k) ltac:(lia)) as [v' Hv'].
      exists v'. rewrite <- Hv'. f_equal. lia.
    + exists w'. split; [now rewrite Hrun|]. split; [lia|].
      rewrite Hs', Hs1, <- app_assoc. reflexivity.
Qed.

(** C2. With [max_retries = 3], in both retry loops (lines 345-356 and
    1155-1171), on an open page whose reloads succeed: if the check fails on
    its first two invocations and succeeds on the third, the loop ends
    normally after exactly three invocations of the check; if the check fails
    on its first three invocations, the loop raises "Login form not found
    after retries" after exactly three invocations, and the later variant
    has recorded LOGIN FAILED once, after its two retry notes. *)
Theorem login_form_retry_bounds email w p :
  page w = Some p ->
  let n0 := calls_of form_check (trace w) in
  let r0 := calls_of Reload (trace w) in
  (forall k, k < 2 -> exists v, driver env Reload (r0 + k) = Ok v) ->
  ((forall k, k < 2 -> exists e, driver env form_check (n0 + k) = Err e) ->
   (exists v, driver env form_check (n0 + 2) = Ok v) ->
   (exists w', wait_for_login_form_L345 env cfg w = (Ret tt, w') /\
               calls_of form_check (trace w') = n0 + 3) /\
   (exists w', wait_for_login_form env cfg email w = (Ret tt, w') /\
               calls_of form_check (trace w') = n0 + 3)) /\
  ((forall k, k < 3 -> exists e, driver env form_check (n0 + k) = Err e) ->
   (exists w', wait_for_login_form_L345 env cfg w = (Raise login_form_not_found, w') /\
               calls_of form_check (trace w') = n0 + 3) /\
   (exists w', wait_for_login_form env cfg email w = (Raise login_form_not_found, w') /\
               calls_of form_check (trace w') = n0 + 3 /\
               recorded_statuses w' email =
               (recorded_statuses w email ++
                [AccountStatus.INIT; AccountStatus.INIT; AccountStatus.LOGIN_FAILED])%list)).
Proof.
  intros Hp n0 r0 Hreload. split.
  - intros Hfail Hok. split.
    + destruct (loop_L345_finds 2 3 3 0 w p Hp ltac:(lia) ltac:(lia) Hfail Hok Hreload)
        as (w' & Hrun & Hn).
      exists w'. split; [exact Hrun | subst n0; lia].
    + destruct (loop_finds 2 3 3 0 email w p Hp ltac:(lia) ltac:(lia) Hfail Hok Hreload)
        as (w' & Hrun & Hn & _).
      exists w'. split; [exact Hrun | subst n0; lia].
  - intros Hfail. split.
    + destruct (loop_L345_gives_up 2 3 3 0 w p Hp ltac:(lia) ltac:(lia)) as (w' & Hrun & Hn).
      * intros k Hk. apply Hfail. lia.
      * exact Hreload.
      * exists w'. split; [exact Hrun | subst n0; lia].
    + destruct (loop_gives_up 2 3 3 0 email w p Hp ltac:(lia) ltac:(lia))
        as (w' & Hrun & Hn & Hs).
      * intros k Hk. apply Hfail. lia.
      * exact Hreload.
      * exists w'. split; [exact Hrun|]. split; [subst n0; lia | exact Hs].
Qed.

End Retry.

Lemma login_form_retry_bounds_witness :
  let found := wait_for_login_form (flaky_env 2) demo_cfg "a@x.com" open_world in
  let lost := wait_for_login_form (flaky_env 3) demo_cfg "a@x.com" open_world in
  (found.1 = Ret tt /\ calls_of form_check (trace found.2) = 3) /\
  (lost.1 = Raise login_form_not_found /\ calls_of form_check (trace lost.2) = 3).
Proof.
  split.
  - destruct (login_form_retry_bounds (flaky_env 2) demo_cfg "a@x.com" open_world 2 eq_refl)
      as [Hfound _].
    { intros k Hk. exists VNone. reflexivity. }
    destruct Hfound as [_ (w' & Hrun & Hn)].
    { intros [|[|k]] Hk; [exists timeout_error; reflexivity ..| lia]. }
    { exists (VElem 7). reflexivity. }
    cbv zeta. rewrite Hrun. split; [reflexivity | exact Hn].
  - destruct (login_form_retry_bounds (flaky_env 3) demo_cfg "a@x.com" open_world 2 eq_refl)
      as [_ Hlost].
    { intros k Hk. exists VNone. reflexivity. }
    destruct Hlost as [_ (w' & Hrun & Hn & _)].
    { intros [|[|[|k]]] Hk; [exists timeout_error; reflexivity ..| lia]. }
    cbv zeta. rewrite Hrun. split; [reflexivity | exact Hn].
Defined.

(** ** Pacing primitives *)

Section Pacing.

Context (env : Env) (cfg : TLSConfig).


End Pacing.



(** ** close *)

Section Close.

Context (env : Env).

(** C10, as the code has it. After a call to [close] that returns, the
    browser reference is [None], and a further call does nothing and raises
    nothing; the page reference is [None] as well when the browser reference
    was set before the call, while a call that finds no browser reference
    changes nothing, the page reference included. *)
Theorem close_then_close_does_nothing w w1 :
  close env w = (Ret tt, w1) ->
  browser w1 = None /\
  (browser w <> None -> page w1 = None) /\
  (browser w = None -> w1 = w) /\
  close env w1 = (Ret tt, w1).
Proof.
  unfold close, bind at 1, get at 1.
  destruct (browser w) as [h|] eqn:Hb.
  - unfold bind at 1. rewrite issue_run.
    destruct (driver env (BrowserClose h) _); [|discriminate].
    unfold bind, modify. intros [= <-].
    split; [reflexivity|]. split; [reflexivity|]. split; [discriminate|].
    reflexivity.
  - unfold ret. intros [= <-].
    split; [exact Hb|]. split; [congruence|]. split; [reflexivity|].
    unfold bind, get. now rewrite Hb.
Qed.

End Close.

Lemma close_then_close_does_nothing_witness :
  let w1 := (close demo_env open_world).2 in
  browser w1 = None /\ page w1 = None /\ close demo_env w1 = (Ret tt, w1).
Proof.
  destruct (close_then_close_does_nothing demo_env open_world
              (close demo_env open_world).2 eq_refl)
    as (Hb & Hp & _ & Hagain).
  split; [exact Hb|]. split; [|exact Hagain].
  apply Hp. discriminate.
Defined.

(** C10 fails as stated: [setup] stores [browser_context.browser], which a
    persistent context may leave [None], next to the page it opens; [close]
    then finds no browser and leaves the page reference set. *)
Lemma close_leaves_page_reference :
  let ready := setup (persistent_env true) init_world in
  let closed := close (persistent_env true) ready.2 in
  ready.1 = Ret true /\ browser ready.2 = None /\ page ready.2 = Some 2 /\
  closed.1 = Ret tt /\ page closed.2 = Some 2.
Proof. vm_compute. repeat split; reflexivity. Qed.

(** ** The failure handler of lines 558-566 *)

Section Classification.

Context (env : Env) (cfg : TLSConfig).

Lemma PlaywrightError_is_unbound :
  existsb (String.eqb "PlaywrightError") module_globals = false.
Proof. reflexivity. Qed.

(** C5 on the code. Whatever exception reaches the handler of lines
    558-566, a driver error included, reading [PlaywrightError] fails first:
    the handler raises NameError, records no status and logs nothing. So a
    run whose [try] block raised [e] enters its [finally] block with the
    ledger as the [try] block left it, and the caller receives the NameError
    or what the [finally] block raises, never [e]. *)
Theorem network_error_is_not_classified email password center e w :
  classify_failure_L558 env email e w = (Raise (NameError "PlaywrightError"), w) /\
  forall w1,
    start_workflow_L533_try env cfg email center w = (Raise e, w1) ->
    start_workflow_L533 env cfg email password center w =
    match start_workflow_L533_finally env cfg email password w1 with
    | (Ret _, w2) => (Raise (NameError "PlaywrightError"), w2)
    | outcome => outcome
    end.
Proof.
  split; [reflexivity|].
  intros w1 Htry. unfold start_workflow_L533, try_finally, try_except.
  rewrite Htry.
  change (classify_failure_L558 env email e w1)
    with (@Raise unit (NameError "PlaywrightError"), w1).
  cbv beta iota.
  destruct (start_workflow_L533_finally env cfg email password w1) as [[[]|e'|] w2];
    reflexivity.
Qed.

(** The sibling handlers of lines 1141-1143 do record NETWORK ERROR, for
    whatever the navigation step raised. *)
Lemma navigation_error_recorded_L1141 email e w :
  (update_account_status env email AccountStatus.NETWORK_ERROR (exn_msg e) ;;
   @raise unit e) w =
  (Raise e, record_status env email AccountStatus.NETWORK_ERROR (exn_msg e) w).
Proof. unfold bind. now rewrite update_run. Qed.

End Classification.

Lemma network_error_is_not_classified_witness :
  let w1 := (start_workflow_L533_try (persistent_env false) demo_cfg
               "a@x.com" "par" init_world).2 in
  start_workflow_L533 (persistent_env false) demo_cfg "a@x.com" "secret" "par" init_world =
  match start_workflow_L533_finally (persistent_env false) demo_cfg "a@x.com" "secret" w1 with
  | (Ret _, w2) => (Raise (NameError "PlaywrightError"), w2)
  | outcome => outcome
  end.
Proof.
  apply (network_error_is_not_classified (persistent_env false) demo_cfg
           "a@x.com" "secret" "par" net_error init_world).
  vm_compute. reflexivity.
Defined.

(** A run of the variant of lines 533-613 whose navigation fails with a
    driver error: no NETWORK ERROR is recorded, the [finally] block carries
    on with the login, and the caller receives "Login failed". *)
Example offline_run_L533 :
  let run := start_workflow_L533 (persistent_env false) demo_cfg
               "a@x.com" "secret" "par" init_world in
  run.1 = Raise (Exception "Login failed") /\
  recorded_statuses run.2 "a@x.com" =
  [ AccountStatus.INIT; AccountStatus.INIT; AccountStatus.INIT;
    AccountStatus.INIT; AccountStatus.INIT; AccountStatus.LOGIN_FAILED ] /\
  gotos (trace run.2) = [EvCall (Goto "https://fr.tlscontact.com/visa/ma/PAR")].
Proof. vm_compute. repeat split; reflexivity. Qed.

(** ** Notifications and navigations of a run *)

Section Calm.
Context (env : Env) (cfg : TLSConfig).

Lemma calm_ret {A} (a : A) : calm (ret a).
Proof. intros w. simpl. repeat split; auto; discriminate. Qed.

Lemma calm_raise {A} e : calm (@raise A e).
Proof. intros w. simpl. repeat split; auto; discriminate. Qed.

Lemma calm_get {A} (f : World -> A) : calm (get f).
Proof. intros w. simpl. repeat split; auto; discriminate. Qed.

Lemma calm_bind {A B} (m : M A) (k : A -> M B) :
  calm m -> (forall a, calm (k a)) -> calm (bind m k).
Proof.
  intros Hm Hk w. unfold bind. specialize (Hm w).
  destruct (m w) as [[a|e|] w1]; simpl in *.
  - destruct Hm as (_ & Ha0 & Hg0).
    destruct (Hk a w1) as (Hr & Ha & Hg). repeat split; congruence.
  - split; [discriminate | tauto].
  - tauto.
Qed.

Lemma calm_try_except {A} (body : M A) (handler : PyExn -> M A) :
  calm body -> (forall e, calm (handler e)) -> calm (try_except body handler).
Proof.
  intros Hb Hh w. unfold try_except. specialize (Hb w).
  destruct (body w) as [[a|e|] w1]; simpl in *; try exact Hb.
  destruct Hb as (_ & Ha0 & Hg0).
  destruct (Hh e w1) as (Hr & Ha & Hg). repeat split; congruence.
Qed.

Lemma calm_try_finally {A} (body : M A) (fin : M unit) :
  calm body -> calm fin -> calm (try_finally body fin).
Proof.
  intros Hb Hf w. unfold try_finally. specialize (Hb w).
  destruct (body w) as [[a|e|] w1]; simpl in *; try tauto;
    specialize (Hf w1); destruct (fin w1) as [[[]|e'|] w2]; simpl in *;
    repeat split; try discriminate; try tauto; try congruence;
    destruct Hb as (_ & Ha & Hg); destruct Hf as (_ & Ha' & Hg'); congruence.
Qed.

(** Setters and events that are neither alerts nor navigations. *)
Lemma calm_modify (f : World -> World) :
  (forall w, alerts (trace (f w)) = alerts (trace w) /\
             gotos (trace (f w)) = gotos (trace w)) ->
  calm (modify f).
Proof. intros Hf w. simpl. split; [discriminate | apply Hf]. Qed.

Lemma calm_emit evs :
  alerts evs = [] -> gotos evs = [] -> calm (modify (emit evs)).
Proof.
  intros Ha Hg. apply calm_modify. intros w. simpl.
  rewrite alerts_app, gotos_app, Ha, Hg, !app_nil_r. auto.
Qed.

Lemma calm_log level msg : calm (log level msg).
Proof. now apply calm_emit. Qed.

Lemma calm_draw : calm (draw env).
Proof. intros w. simpl. repeat split; auto; discriminate. Qed.

Lemma calm_sleep_uniform lo hi : calm (sleep_uniform env lo hi).
Proof. apply calm_bind; [apply calm_draw | intros _; now apply calm_emit]. Qed.

Lemma calm_timeout_of key : calm (timeout_of cfg key).
Proof. unfold timeout_of. destruct (_ !! _); [apply calm_ret | apply calm_raise]. Qed.

Lemma calm_human_delay lo hi : calm (_human_delay env cfg lo hi).
Proof.
  unfold _human_delay.
  apply calm_bind; [|intros a; apply calm_bind; [|intros b; apply calm_sleep_uniform]].
  - destruct lo as [v|]; [destruct (v =? 0)%Z|];
      solve [apply calm_ret | apply calm_timeout_of].
  - destruct hi as [v|]; [destruct (v =? 0)%Z|];
      solve [apply calm_ret | apply calm_timeout_of].
Qed.

Lemma calm_issue c : is_goto (EvCall c) = false -> calm (issue env c).
Proof.
  intros Hc w. rewrite issue_run. cbn [fst snd emit trace].
  assert (Hg : gotos [EvCall c] = [])
    by (unfold gotos; cbn [List.filter]; now rewrite Hc).
  rewrite alerts_app, gotos_app, Hg. cbn [alerts List.filter is_alert].
  rewrite !app_nil_r. split; [|auto].
  destruct (driver env c _); discriminate.
Qed.

Lemma calm_page_call meth c : is_goto (EvCall c) = false -> calm (page_call env meth c).
Proof.
  intros Hc. apply calm_bind; [apply calm_get|].
  intros [p|]; [now apply calm_issue | apply calm_raise].
Qed.

Lemma calm_update email st d : calm (update_account_status env email st d).
Proof.
  intros w. rewrite update_run. simpl.
  rewrite record_status_alerts, record_status_gotos.
  repeat split; auto; discriminate.
Qed.

Lemma calm_cloudflare_scan timeout selectors :
  calm (cloudflare_scan env cfg timeout selectors).
Proof.
  induction selectors as [|selector rest IH]; cbn [cloudflare_scan].
  - apply calm_ret.
  - apply calm_bind.
    + apply calm_try_except.
      * apply calm_bind; [now apply calm_page_call|].
        intros challenge. destruct (truthy challenge); [|apply calm_ret].
        apply calm_bind; [apply calm_log|]. intros _.
        apply calm_bind; [now apply calm_page_call|]. intros _.
        apply calm_bind; [apply calm_human_delay|]. intros _. apply calm_ret.
      * intros e. apply calm_bind; [apply calm_log | intros _; apply calm_ret].
    + intros [|]; [apply calm_ret | exact IH].
Qed.

Lemma calm_handle_cloudflare timeout : calm (_handle_cloudflare env cfg timeout).
Proof.
  apply calm_try_except.
  - apply calm_bind; [apply calm_cloudflare_scan|]. intros _.
    apply calm_bind; [now apply calm_page_call|]. intros _.
    apply calm_human_delay.
  - intros e. apply calm_bind; [apply calm_log | intros _; apply calm_raise].
Qed.

(** Failing calmly. *)
Lemma fails_raise {A} e : fails_calmly (@raise A e).
Proof. intros w. simpl. eauto. Qed.

Lemma fails_bind_left {A B} (m : M A) (k : A -> M B) :
  fails_calmly m -> fails_calmly (bind m k).
Proof.
  intros Hm w. unfold bind. specialize (Hm w).
  destruct (m w) as [[a|e|] w1]; simpl in *;
    destruct Hm as ([e' He'] & Ha & Hg); try discriminate.
  eauto.
Qed.

Lemma fails_bind_right {A B} (m : M A) (k : A -> M B) :
  calm m -> (forall a, fails_calmly (k a)) -> fails_calmly (bind m k).
Proof.
  intros Hm Hk w. unfold bind. specialize (Hm w).
  destruct (m w) as [[a|e|] w1]; simpl in *; destruct Hm as (Hr & Ha & Hg).
  - destruct (Hk a w1) as (He & Ha' & Hg'). repeat split; [exact He|congruence..].
  - eauto.
  - congruence.
Qed.

Lemma fails_try_except {A} (body : M A) (handler : PyExn -> M A) :
  fails_calmly body -> (forall e, fails_calmly (handler e)) ->
  fails_calmly (try_except body handler).
Proof.
  intros Hb Hh w. unfold try_except. specialize (Hb w).
  destruct (body w) as [[a|e|] w1]; simpl in *;
    destruct Hb as ([e' He'] & Ha & Hg); try discriminate.
  destruct (Hh e w1) as (He & Ha' & Hg'). repeat split; [exact He|congruence..].
Qed.

Lemma fails_try_finally {A} (body : M A) (fin : M unit) :
  fails_calmly body -> calm fin -> fails_calmly (try_finally body fin).
Proof.
  intros Hb Hf w. unfold try_finally. specialize (Hb w).
  destruct (body w) as [[a|e|] w1]; simpl in *;
    destruct Hb as ([e' He'] & Ha & Hg); try discriminate.
  specialize (Hf w1). destruct (fin w1) as [[[]|e2|] w2]; simpl in *;
    destruct Hf as (Hr & Ha' & Hg'); try congruence;
    (split; [eauto | split; congruence]).
Qed.

Lemma calm_set_current_step n : calm (modify (set_current_step n)).
Proof. apply calm_modify. intros w. simpl. auto. Qed.

Lemma calm_set_current_account a : calm (modify (set_current_account a)).
Proof. apply calm_modify. intros w. simpl. auto. Qed.

(** With a centre code that [CENTERS] does not hold, line 1140 raises
    before the driver is reached. *)
Lemma goto_center_unknown center :
  CENTERS cfg !! upper center = None -> fails_calmly (goto_center env cfg center).
Proof.
  intros Hnone w. unfold goto_center, bind, get, center_url. rewrite Hnone.
  destruct (page w); simpl; eauto.
Qed.

(** C4 on the code. A run of start_workflow (lines 1117-1467) with a centre
    code that [TLSConfig.CENTERS] does not hold always fails, and it sends
    no notification and starts no navigation at all: the URL lookup of line
    1140 raises first, long before the check of line 1243. *)
Theorem unknown_center_fails_unnotified email password center w :
  CENTERS cfg !! upper center = None ->
  let run := start_workflow env cfg email password center w in
  (exists e, run.1 = Raise e) /\
  alerts (trace run.2) = alerts (trace w) /\
  gotos (trace run.2) = gotos (trace w).
Proof.
  intros Hnone. apply (fails_try_finally _ _).
  - apply fails_try_except.
    + unfold start_workflow_body.
      apply fails_bind_right; [apply calm_set_current_account|]. intros _.
      apply fails_bind_right; [apply calm_update|]. intros _.
      apply fails_bind_right.
      { apply calm_try_except.
        - apply calm_bind; [apply calm_handle_cloudflare | intros _; apply calm_update].
        - intros e. apply calm_bind; [apply calm_update | intros _; apply calm_raise]. }
      intros _. apply fails_bind_left. apply fails_try_except.
      * apply fails_bind_right; [apply calm_set_current_step|]. intros _.
        apply fails_bind_right; [apply calm_get|]. intros cs.
        apply fails_bind_right; [apply calm_update|]. intros _.
        apply fails_bind_right; [apply calm_human_delay|]. intros _.
        now apply goto_center_unknown.
      * intros e. apply fails_bind_right; [apply calm_update|]. intros _.
        apply fails_raise.
    + intros e. apply fails_bind_right; [apply calm_log|]. intros _. apply fails_raise.
  - apply calm_bind; [apply calm_human_delay | intros _; apply calm_human_delay].
Qed.

(** The check the run never reaches, lines 1240-1249: taken alone, it sends
    one notification for a code that [AUTH_PARAMS] does not hold and raises
    "Unknown center" without navigating. *)
Lemma city_fragment_notifies_once email center w :
  upper center ∉ AUTH_PARAMS cfg ->
  exists w',
    select_city_L1235 env cfg email center w =
    (Raise (Exception ("Unknown center: " ++ center)), w') /\
    length (alerts (trace w')) = S (length (alerts (trace w))) /\
    gotos (trace w') = gotos (trace w).
Proof.
  intros Hnot. unfold select_city_L1235.
  unfold bind at 1, modify at 1. unfold bind at 1, get at 1.
  unfold bind at 1. rewrite update_run.
  unfold bind at 1. rewrite update_run.
  rewrite (bool_decide_eq_false_2 _ Hnot).
  cbn [bind send_security_notification try_except now_strftime modify log ret raise
       fst snd emit set_clock trace].
  eexists. split; [reflexivity|].
  cbn [trace emit set_clock].
  rewrite !alerts_app, !gotos_app, !record_status_alerts, !record_status_gotos.
  cbn [set_current_step trace alerts gotos List.filter is_alert is_goto].
  rewrite ?length_app, ?app_nil_r. unfold alerts, gotos. cbn [length].
  split; [lia|reflexivity].
Qed.
End Calm.

Lemma unknown_center_fails_unnotified_witness :
  let run := start_workflow demo_env demo_cfg "a@x.com" "secret" "XYZ" open_world in
  (exists e, run.1 = Raise e) /\ alerts (trace run.2) = [] /\ gotos (trace run.2) = [].
Proof.
  exact (unknown_center_fails_unnotified demo_env demo_cfg "a@x.com" "secret" "XYZ"
           open_world eq_refl).
Defined.

(** The same run in full: KeyError, recorded as NETWORK ERROR. *)
Example unknown_center_run :
  let run := start_workflow demo_env demo_cfg "a@x.com" "secret" "XYZ" open_world in
  run.1 = Raise (KeyError "XYZ") /\
  recorded_statuses run.2 "a@x.com" =
  [ AccountStatus.INIT; AccountStatus.INIT; AccountStatus.INIT;
    AccountStatus.NETWORK_ERROR ] /\
  alerts (trace run.2) = [] /\ gotos (trace run.2) = [].
Proof. vm_compute. repeat split; reflexivity. Qed.

(** ** The calendar monitor *)

Section Monitor.
Context (env : Env) (cfg : TLSConfig).






(** What follows an empty-handed loop returns [False] and calls nothing. *)
Lemma give_up_returns_false w :
  exists w', monitor_give_up env w = (Ret false, w') /\
             forall c, calls_of c (trace w') = calls_of c (trace w).
Proof.
  unfold monitor_give_up.
  unfold bind at 1, log at 1, modify at 1. unfold bind at 1, get at 1.
  cbn [current_account emit].
  destruct (dict_truthy (current_account w)).
  - unfold bind at 1, bind at 1, random_below at 1, bind at 1, draw at 1, ret at 1.
    destruct (_ <? 10)%nat.
    + cbn [bind send_security_notification try_except now_strftime modify log ret].
      eexists. split; [reflexivity|]. intros c. count_calls. lia.
    + cbn [bind ret]. eexists. split; [reflexivity|]. intros c. count_calls. lia.
  - cbn [bind ret]. eexists. split; [reflexivity|]. intros c. count_calls. lia.
Qed.


End Monitor.


(** The one-shot calendar of lines 837-857 makes the same choice: with two
    available dates listed the first is clicked and the booking goes on;
    with none the run returns [False] with BOOKING FAILED recorded. *)
Example one_shot_calendar_L808 :
  let booked := start_workflow_L808 (booking_env [41; 42]) demo_cfg
                  "a@x.com" "secret" "PAR" open_world in
  let none := start_workflow_L808 (booking_env []) demo_cfg
                "a@x.com" "secret" "PAR" open_world in
  (booked.1 = Ret (Some true) /\
   calls_of (ElemClick 41) (trace booked.2) = 1 /\
   calls_of (ElemClick 42) (trace booked.2) = 0 /\
   recorded_statuses booked.2 "a@x.com" = [AccountStatus.INIT; AccountStatus.BOOKED]) /\
  (none.1 = Ret (Some false) /\
   recorded_statuses none.2 "a@x.com" =
   [AccountStatus.INIT; AccountStatus.BOOKING_FAILED]).
Proof. vm_compute. repeat split; reflexivity. Qed.

(** * Further properties of the source *)

(** ** The ledger beyond the claims *)

Section LedgerMore.

Context (env : Env).

Lemma history_after_update email st d w :
  history_of (update_account_status env email st d w).2 email =
  (history_of w email ++
   [mkEntry (now env (pred (pred (clock (update_account_status env email st d w).2))))
      st d (step_label w) (S (from_option total_attempts 0 (account_history w !! email)))])%list.
Proof.
  unfold history_of at 1. rewrite lookup_after_update, next_record_history.
  rewrite clock_after_update. unfold history_of.
  now destruct (account_history w !! email).
Qed.

Lemma history_after_update_ne email other st d w :
  other <> email ->
  history_of (update_account_status env other st d w).2 email = history_of w email.
Proof.
  intros Hne. unfold history_of. now rewrite lookup_after_update_ne.
Qed.

(** X1. The history of an identity is append-only: whatever the ledger
    holds at the start, a sequence of calls and step changes leaves the
    entries already there untouched, in place, and adds after them one entry
    per call for the identity, carrying the statuses and details of these
    calls in call order. *)
Theorem history_is_append_only email ops : forall w,
  exists added,
    history_of (run_ops env ops w) email = (history_of w email ++ added)%list /\
    map (fun e => (h_status e, details e)) added = calls_for email ops.
Proof.
  induction ops as [|[k|e st d] ops IH]; intros w.
  - exists []. simpl. now rewrite app_nil_r.
  - destruct (IH (set_current_step k w)) as (added & Hh & Hc).
    exists added. split; [exact Hh | exact Hc].
  - change (run_ops env (OpUpdate e st d :: ops) w)
      with (run_ops env ops (update_account_status env e st d w).2).
    destruct (IH (update_account_status env e st d w).2) as (added & Hh & Hc).
    cbn [calls_for]. destruct (String.eqb_spec e email) as [->|Hne].
    + rewrite history_after_update in Hh. rewrite <- app_assoc in Hh.
      eexists. split; [exact Hh|]. simpl. now rewrite Hc.
    + rewrite history_after_update_ne in Hh by assumption.
      exists added. split; [exact Hh | exact Hc].
Qed.

End LedgerMore.

Section LedgerMore2.
Context (env : Env).

(** X2. A call for one identity leaves every other identity's record as it
    was, and of the bot it changes nothing but the ledger: browser, page,
    current account, login flag and step are kept, no random number is
    drawn, no driver call is issued and no notification is sent. *)
Theorem update_touches_only_its_record email st d w :
  let w' := (update_account_status env email st d w).2 in
  (forall other, other <> email ->
                 account_history w' !! other = account_history w !! other) /\
  browser w' = browser w /\ page w' = page w /\
  current_account w' = current_account w /\ logged_in w' = logged_in w /\
  current_step w' = current_step w /\ draws w' = draws w /\
  (forall c, calls_of c (trace w') = calls_of c (trace w)) /\
  alerts (trace w') = alerts (trace w).
Proof.
  cbv zeta. split.
  - intros other Hne. now apply lookup_after_update_ne.
  - fold (record_status env email st d w).
    rewrite record_status_browser, record_status_page, record_status_current_account,
      record_status_current_step, record_status_draws, record_status_alerts.
    repeat split; try reflexivity.
    + unfold record_status. now rewrite update_account_status_run.
    + intros c. apply record_status_calls.
Qed.

Lemma last_write_app tr1 tr2 :
  last_write (tr1 ++ tr2)%list =
  match last_write tr2 with
  | Some s => Some s
  | None => last_write tr1
  end.
Proof.
  induction tr1 as [|ev tr1 IH]; simpl.
  - now destruct (last_write tr2).
  - rewrite IH. now destruct (last_write tr2).
Qed.

Lemma last_write_after_update email st d w :
  last_write (trace (update_account_status env email st d w).2) =
  Some (account_history (update_account_status env email st d w).2).
Proof.
  rewrite update_account_status_run. cbn [snd trace account_history].
  rewrite last_write_app. reflexivity.
Qed.

(** X3. The history file follows the ledger: after any sequence that
    records at least one status, for whatever identity, the snapshot most
    recently written to the file is the whole ledger as it stands in
    memory. *)
Theorem file_holds_the_ledger ops : forall w,
  records_something ops = true ->
  last_write (trace (run_ops env ops w)) = Some (account_history (run_ops env ops w)).
Proof.
  assert (Hkeep : forall ops w,
             last_write (trace w) = Some (account_history w) ->
             last_write (trace (run_ops env ops w)) =
             Some (account_history (run_ops env ops w))).
  { clear ops. induction ops as [|[k|e st d] ops IH]; intros w Hw.
    - exact Hw.
    - apply (IH (set_current_step k w)). exact Hw.
    - apply (IH (update_account_status env e st d w).2).
      apply last_write_after_update. }
  induction ops as [|[k|e st d] ops IH]; intros w Hsome.
  - discriminate.
  - apply (IH (set_current_step k w)). exact Hsome.
  - apply (Hkeep ops (update_account_status env e st d w).2).
    apply last_write_after_update.
Qed.

Lemma status_after_run email ops : forall w,
  status <$> (account_history (run_ops env ops w) !! email) =
  match last (statuses_for email ops) with
  | Some st => Some st
  | None => status <$> (account_history w !! email)
  end.
Proof.
  induction ops as [|[k|e st d] ops IH]; intros w.
  - reflexivity.
  - apply (IH (set_current_step k w)).
  - change (run_ops env (OpUpdate e st d :: ops) w)
      with (run_ops env ops (update_account_status env e st d w).2).
    rewrite IH. cbn [statuses_for].
    destruct (String.eqb_spec e email) as [->|Hne].
    + rewrite lookup_after_update. cbn [fmap option_fmap option_map].
      rewrite next_record_status.
      rewrite last_cons. now destruct (last (statuses_for email ops)).
    + now rewrite lookup_after_update_ne.
Qed.

(** X4. The snapshot agrees with the history: once a status has been
    recorded for an identity, the record's current status is the status of
    the latest call for it, which is also the status of its last history
    entry, and the counter of that entry is the record's attempt total. *)
Theorem snapshot_agrees_with_history email ops w :
  statuses_for email ops <> [] ->
  let w' := run_ops env ops w in
  exists a e,
    account_history w' !! email = Some a /\
    last (history a) = Some e /\
    Some (status a) = last (statuses_for email ops) /\
    h_status e = status a /\
    attempt e = total_attempts a.
Proof.
  intros Hsome w'.
  assert (Hinv : forall ops w,
             statuses_for email ops <> [] \/
             (exists a e, account_history w !! email = Some a /\
                          last (history a) = Some e /\
                          h_status e = status a /\ attempt e = total_attempts a) ->
             exists a e, account_history (run_ops env ops w) !! email = Some a /\
                         last (history a) = Some e /\
                         h_status e = status a /\ attempt e = total_attempts a).
  { clear. induction ops as [|[k|e st d] ops IH]; intros w Hw.
    - destruct Hw as [Hw|Hw]; [now elim Hw | exact Hw].
    - apply (IH (set_current_step k w)). exact Hw.
    - change (run_ops env (OpUpdate e st d :: ops) w)
        with (run_ops env ops (update_account_status env e st d w).2).
      apply IH. cbn [statuses_for] in Hw.
      destruct (String.eqb_spec e email) as [->|Hne].
      + right. rewrite lookup_after_update. eexists. eexists.
        split; [reflexivity|].
        rewrite next_record_history, last_snoc, next_record_status,
          next_record_total_attempts. auto.
      + rewrite lookup_after_update_ne by assumption. exact Hw. }
  destruct (Hinv ops w (or_introl Hsome)) as (a & e & Ha & He & Hst & Hat).
  exists a, e. repeat split; try assumption.
  pose proof (status_after_run email ops w) as Hlast.
  fold w' in Ha. subst w'. rewrite Ha in Hlast. cbn in Hlast.
  destruct (last (statuses_for email ops)) as [st|] eqn:Hl; [exact Hlast|].
  apply last_None in Hl. contradiction.
Qed.
End LedgerMore2.

Lemma file_holds_the_ledger_witness :
  let w' := run_ops demo_env sample_ops init_world in
  last_write (trace w') = Some (account_history w').
Proof. exact (file_holds_the_ledger demo_env sample_ops init_world eq_refl). Defined.

Lemma snapshot_agrees_with_history_witness :
  let w' := run_ops demo_env sample_ops init_world in
  exists a e,
    account_history w' !! "a@x.com" = Some a /\
    last (history a) = Some e /\
    Some (status a) = Some AccountStatus.LOGIN_FAILED /\
    h_status e = status a /\
    attempt e = total_attempts a.
Proof.
  exact (snapshot_agrees_with_history demo_env "a@x.com" sample_ops init_world
           ltac:(discriminate)).
Defined.

(** ** get_account_report *)

Section Report.
Context (env : Env).

Lemma prefix_of_append p s : String.prefix p (p ++ s) = true.
Proof.
  induction p as [|c p IH]; simpl.
  - now destruct s.
  - destruct (Ascii.ascii_dec c c); [exact IH | congruence].
Qed.

(** X5. The report tells a known identity from an unknown one: it is the
    "No history found" sentence exactly when the ledger holds no record for
    the identity; and right after a call for the identity the report opens
    with its name, the status just recorded and the new attempt total. *)
Theorem report_knows_the_identity w email :
  (get_account_report w email = "No history found for account " ++ email <->
   account_history w !! email = None) /\
  forall st d,
    let w' := (update_account_status env email st d w).2 in
    exists rest,
      get_account_report w' email =
      join_lines ([ "Account Report for " ++ email;
                    "Current Status: " ++ st;
                    "Total Attempts: " ++
                      pretty (S (from_option total_attempts 0 (account_history w !! email))) ]
                  ++ rest).
Proof.
  split.
  - unfold get_account_report.
    destruct (account_history w !! email) as [a|]; [|tauto].
    split; [|discriminate]. unfold report_lines. cbn [app join_lines].
    simpl. discriminate.
  - intros st d. cbv zeta. unfold get_account_report.
    rewrite lookup_after_update. unfold report_lines.
    rewrite next_record_status, next_record_total_attempts.
    eexists. cbn [app]. reflexivity.
Qed.

Lemma attempt_lines_of_entries entries :
  lines_with "Attempt #" (concat (map entry_lines entries)) =
  map (fun e => "Attempt #" ++ pretty (attempt e)) entries.
Proof.
  induction entries as [|e entries IH]; [reflexivity|].
  cbn [map concat]. unfold lines_with in *. rewrite List.filter_app, IH.
  unfold entry_lines. rewrite List.filter_app. cbn [List.filter].
  rewrite (prefix_of_append "Attempt #").
  replace (String.prefix "Attempt #" (newline ++ "[" ++ timestamp e ++ "]")) with false
    by reflexivity.
  replace (String.prefix "Attempt #" ("Status: " ++ h_status e)) with false by reflexivity.
  replace (String.prefix "Attempt #" ("Step: " ++ step e)) with false by reflexivity.
  destruct (negb _); reflexivity.
Qed.

Lemma attempt_lines_of_report email a :
  lines_with "Attempt #" (report_lines email a) =
  map (fun e => "Attempt #" ++ pretty (attempt e)) (history a).
Proof.
  unfold report_lines, lines_with. rewrite !List.filter_app.
  fold (lines_with "Attempt #" (concat (map entry_lines (history a)))).
  rewrite attempt_lines_of_entries.
  destruct (truthy_text (last_error a)); reflexivity.
Qed.

(** X6. The report lists the attempts in order: for an identity the ledger
    did not know at the start, after a sequence with n calls for it the
    strings appended to the report that begin with "Attempt #" are
    "Attempt #1", ..., "Attempt #n", one per call and in call order. *)
Theorem report_lists_attempts_in_order email ops w :
  account_history w !! email = None ->
  statuses_for email ops <> [] ->
  exists a,
    account_history (run_ops env ops w) !! email = Some a /\
    lines_with "Attempt #" (report_lines email a) =
    map (fun k => "Attempt #" ++ pretty k) (seq 1 (length (statuses_for email ops))).
Proof.
  intros Hfresh Hsome.
  assert (Hinv : ledger_inv email (0 + length (statuses_for email ops)) (run_ops env ops w)).
  { apply ledger_inv_run. unfold ledger_inv. now rewrite Hfresh. }
  unfold ledger_inv in Hinv.
  destruct (account_history (run_ops env ops w) !! email) as [a|].
  - destruct Hinv as (_ & _ & _ & Hseq). exists a. split; [reflexivity|].
    rewrite attempt_lines_of_report. simpl in Hseq. rewrite <- Hseq.
    now rewrite map_map.
  - simpl in Hinv. destruct (statuses_for email ops); [congruence | discriminate].
Qed.

Lemma no_error_line_in_entries entries :
  lines_with "Last Error: " (concat (map entry_lines entries)) = [].
Proof.
  induction entries as [|e entries IH]; [reflexivity|].
  cbn [map concat]. unfold lines_with in *. rewrite List.filter_app, IH.
  unfold entry_lines. rewrite List.filter_app. cbn [List.filter].
  replace (String.prefix "Last Error: " (newline ++ "[" ++ timestamp e ++ "]")) with false
    by reflexivity.
  replace (String.prefix "Last Error: " ("Attempt #" ++ pretty (attempt e))) with false
    by reflexivity.
  replace (String.prefix "Last Error: " ("Status: " ++ h_status e)) with false by reflexivity.
  replace (String.prefix "Last Error: " ("Step: " ++ step e)) with false by reflexivity.
  destruct (negb _); reflexivity.
Qed.

(** X7. The "Last Error" line follows Python truthiness: among the strings
    the report is joined from, exactly one begins with "Last Error: " when
    the record's last_error is a non-empty text, and it carries that text;
    none does when last_error is None or the empty text - so a failure
    recorded without detail text, as update_account_status(email, FAILED)
    does, shows no error line. *)
Theorem report_error_line email a :
  lines_with "Last Error: " (report_lines email a) =
  match last_error a with
  | Some text => if String.eqb text EmptyString then [] else ["Last Error: " ++ text]
  | None => []
  end.
Proof.
  unfold report_lines, lines_with. rewrite !List.filter_app.
  fold (lines_with "Last Error: " (concat (map entry_lines (history a)))).
  rewrite no_error_line_in_entries.
  destruct (last_error a) as [text|]; [|reflexivity].
  cbn [truthy_text]. destruct (String.eqb text EmptyString); [reflexivity|].
  cbn [negb default from_option List.filter app]. rewrite prefix_of_append. reflexivity.
Qed.

End Report.

Lemma report_lists_attempts_in_order_witness :
  exists a,
    account_history (run_ops demo_env sample_ops init_world) !! "a@x.com" = Some a /\
    lines_with "Attempt #" (report_lines "a@x.com" a) = ["Attempt #1"; "Attempt #2"].
Proof.
  exact (report_lists_attempts_in_order demo_env "a@x.com" sample_ops init_world
           eq_refl ltac:(discriminate)).
Defined.

(** The whole report of that ledger. *)
Example report_of_sample_ledger :
  get_account_report (run_ops demo_env sample_ops init_world) "a@x.com" =
  join_lines
    [ "Account Report for a@x.com"; "Current Status: LOGIN FAILED";
      "Total Attempts: 2"; "Last Updated: T7"; "Success: No";
      "Last Error: Failed to authenticate";
      newline ++ "Detailed History:";
      newline ++ "[T1]"; "Attempt #1"; "Status: INITIALIZING"; "Step: Initialize Bot";
      "Details: Starting workflow - Initialize Bot";
      newline ++ "[T6]"; "Attempt #2"; "Status: LOGIN FAILED";
      "Step: Authentication via OAuth"; "Details: Failed to authenticate" ].
Proof. vm_compute. reflexivity. Qed.

(** ** How outcomes and observations compose *)


Section Composition.
Context (env : Env) (cfg : TLSConfig).

Lemma ends_bind_from {A B} (P : Outcome A -> World -> Prop)
      (Q : Outcome B -> World -> Prop) (m : M A) (k : A -> M B) :
  ends_in P m ->
  (forall a w, P (Ret a) w -> Q (k a w).1 (k a w).2) ->
  (forall e w, P (Raise e) w -> Q (Raise e) w) ->
  (forall w, P Diverge w -> Q Diverge w) ->
  ends_in Q (bind m k).
Proof.
  intros Hm Hk He Hd w. unfold bind. specialize (Hm w).
  destruct (m w) as [[a|e|] w1]; simpl in *; auto.
Qed.

Lemma ends_bind {A B} (P : Outcome A -> World -> Prop) (Q : Outcome B -> World -> Prop)
      (m : M A) (k : A -> M B) :
  ends_in P m ->
  (forall a, (exists w, P (Ret a) w) -> ends_in Q (k a)) ->
  (forall e w, P (Raise e) w -> Q (Raise e) w) ->
  (forall w, P Diverge w -> Q Diverge w) ->
  ends_in Q (bind m k).
Proof.
  intros Hm Hk He Hd. apply (ends_bind_from P); auto.
  intros a w Ha. apply Hk. eauto.
Qed.

(** After an operation that comes back, a property that every exception
    satisfies is owed by the continuation alone. *)
Lemma ends_after {A B} (Q : Outcome B -> World -> Prop) (m : M A) (k : A -> M B) :
  ends_in comes_back m ->
  (forall a, ends_in Q (k a)) ->
  (forall e w, Q (Raise e) w) ->
  ends_in Q (bind m k).
Proof.
  intros Hm Hk He. apply (ends_bind comes_back); auto.
  unfold comes_back. intros w H. now elim H.
Qed.

Lemma ends_try_except {A} (P Q : Outcome A -> World -> Prop)
      (body : M A) (handler : PyExn -> M A) :
  ends_in P body ->
  (forall a w, P (Ret a) w -> Q (Ret a) w) ->
  (forall e, (exists w, P (Raise e) w) -> ends_in Q (handler e)) ->
  (forall w, P Diverge w -> Q Diverge w) ->
  ends_in Q (try_except body handler).
Proof.
  intros Hb Hr Hh Hd w. unfold try_except. specialize (Hb w).
  destruct (body w) as [[a|e|] w1]; simpl in *; auto.
  apply Hh. eauto.
Qed.

Lemma ends_try_finally {A} (P Q : Outcome A -> World -> Prop)
      (R : Outcome unit -> World -> Prop) (body : M A) (fin : M unit) :
  ends_in P body -> ends_in R fin ->
  (forall o w1 w2, P o w1 -> o <> Diverge -> R (Ret tt) w2 -> Q o w2) ->
  (forall e w, R (Raise e) w -> Q (Raise e) w) ->
  (forall w, P Diverge w \/ R Diverge w -> Q Diverge w) ->
  ends_in Q (try_finally body fin).
Proof.
  intros Hb Hf Hr He Hd w. unfold try_finally. specialize (Hb w).
  destruct (body w) as [[a|e|] w1]; simpl in *; auto;
    specialize (Hf w1); destruct (fin w1) as [[[]|e'|] w2]; simpl in *; auto;
    eapply Hr; eauto; discriminate.
Qed.

Lemma ends_weaken {A} (P Q : Outcome A -> World -> Prop) (m : M A) :
  ends_in P m -> (forall o w, P o w -> Q o w) -> ends_in Q m.
Proof. intros Hm HPQ w. apply HPQ, Hm. Qed.

(** Coming back. *)
Lemma calm_halts {A} (m : M A) : calm m -> ends_in comes_back m.
Proof. intros Hm w. apply Hm. Qed.

Lemma returned_halts {A} (m : M A) : ends_in returned m -> ends_in comes_back m.
Proof. intros Hm. apply (ends_weaken _ _ _ Hm). intros o w [a ->]. discriminate. Qed.

Lemma halts_ret {A} (a : A) : ends_in comes_back (ret a).
Proof. intros w. discriminate. Qed.

Lemma halts_raise {A} e : ends_in comes_back (@raise A e).
Proof. intros w. discriminate. Qed.

Lemma halts_get {A} (f : World -> A) : ends_in comes_back (get f).
Proof. intros w. discriminate. Qed.

Lemma halts_modify f : ends_in comes_back (modify f).
Proof. intros w. discriminate. Qed.

Lemma halts_bind {A B} (m : M A) (k : A -> M B) :
  ends_in comes_back m -> (forall a, ends_in comes_back (k a)) ->
  ends_in comes_back (bind m k).
Proof.
  intros Hm Hk. apply (ends_bind comes_back); auto;
    unfold comes_back; intros; congruence.
Qed.

Lemma halts_try_except {A} (body : M A) (handler : PyExn -> M A) :
  ends_in comes_back body -> (forall e, ends_in comes_back (handler e)) ->
  ends_in comes_back (try_except body handler).
Proof.
  intros Hb Hh. apply (ends_try_except comes_back); auto;
    unfold comes_back; intros; congruence.
Qed.

Lemma halts_try_finally {A} (body : M A) (fin : M unit) :
  ends_in comes_back body -> ends_in comes_back fin ->
  ends_in comes_back (try_finally body fin).
Proof.
  intros Hb Hf. apply (ends_try_finally comes_back comes_back comes_back); auto;
    unfold comes_back; intros; try congruence; tauto.
Qed.

Lemma halts_issue c : ends_in comes_back (issue env c).
Proof. intros w. rewrite issue_run. simpl. destruct (driver env c _); discriminate. Qed.

Lemma halts_page_call meth c : ends_in comes_back (page_call env meth c).
Proof.
  apply halts_bind; [apply halts_get|].
  intros [p|]; [apply halts_issue | apply halts_raise].
Qed.

Lemma halts_elem_call meth v c : ends_in comes_back (elem_call env meth v c).
Proof. destruct v; first [apply halts_issue | apply halts_raise]. Qed.

Lemma halts_update email st d : ends_in comes_back (update_account_status env email st d).
Proof. apply calm_halts, calm_update. Qed.

Lemma halts_human_delay lo hi : ends_in comes_back (_human_delay env cfg lo hi).
Proof. apply calm_halts, calm_human_delay. Qed.

Lemma halts_log level msg : ends_in comes_back (log level msg).
Proof. apply calm_halts, calm_log. Qed.

Lemma halts_draw : ends_in comes_back (draw env).
Proof. apply calm_halts, calm_draw. Qed.

Lemma halts_sleep_uniform lo hi : ends_in comes_back (sleep_uniform env lo hi).
Proof. apply calm_halts, calm_sleep_uniform. Qed.

Lemma halts_load_global name : ends_in comes_back (load_global name).
Proof. unfold load_global. destruct (existsb _ _); [apply halts_ret | apply halts_raise]. Qed.

Lemma halts_for_each {A} (xs : list A) (body : A -> M unit) :
  (forall x, ends_in comes_back (body x)) -> ends_in comes_back (for_each xs body).
Proof.
  intros Hb. induction xs as [|x xs IH]; cbn [for_each].
  - apply halts_ret.
  - apply halts_bind; [apply Hb | intros _; exact IH].
Qed.

End Composition.

(** One step of a proof that an operation comes back. *)
Ltac halting_step :=
  first
    [ apply halts_ret | apply halts_raise | apply halts_get | apply halts_modify
    | apply halts_update | apply halts_human_delay | apply halts_log
    | apply halts_draw | apply halts_sleep_uniform | apply halts_load_global
    | apply halts_issue | apply halts_page_call | apply halts_elem_call
    | apply halts_for_each; intros ?
    | apply halts_bind; [|intros ?]
    | apply halts_try_except; [|intros ?]
    | apply halts_try_finally
    | match goal with
      | |- ends_in comes_back (match ?x with _ => _ end) => destruct x
      end ].

Ltac halting := repeat halting_step.

(** Observations that an operation leaves alone. *)
Section Frames.
Context (env : Env) (cfg : TLSConfig).

Lemma calls_in_app tr1 tr2 :
  calls_in (tr1 ++ tr2)%list = (calls_in tr1 ++ calls_in tr2)%list.
Proof.
  induction tr1 as [|[c| | | |] tr1 IH]; simpl; auto. now rewrite IH.
Qed.

Lemma calls_of_no_calls c evs : calls_in evs = [] -> calls_of c evs = 0.
Proof.
  induction evs as [|[c'| | | |] evs IH]; simpl; auto. discriminate.
Qed.

Global Instance page_steady : Steady page.
Proof. split; reflexivity. Qed.

Global Instance logged_in_steady : Steady logged_in.
Proof. split; reflexivity. Qed.

Global Instance calls_of_steady c : Steady (fun w => calls_of c (trace w)).
Proof.
  split; try reflexivity. intros evs w Hevs. simpl.
  rewrite calls_of_app, (calls_of_no_calls _ _ Hevs). lia.
Qed.

Lemma keeps_ret {A X} (f : World -> X) (a : A) : keeps f (ret a).
Proof. intros w. reflexivity. Qed.

Lemma keeps_raise {A X} (f : World -> X) e : keeps f (@raise A e).
Proof. intros w. reflexivity. Qed.

Lemma keeps_get {A X} (f : World -> X) (g : World -> A) : keeps f (get g).
Proof. intros w. reflexivity. Qed.

Lemma keeps_modify {X} (f : World -> X) g :
  (forall w, f (g w) = f w) -> keeps f (modify g).
Proof. intros Hg w. apply Hg. Qed.

Lemma keeps_bind {A B X} (f : World -> X) (m : M A) (k : A -> M B) :
  keeps f m -> (forall a, keeps f (k a)) -> keeps f (bind m k).
Proof.
  intros Hm Hk w. unfold bind. specialize (Hm w).
  destruct (m w) as [[a|e|] w1]; simpl in *; auto.
  now rewrite Hk.
Qed.

Lemma keeps_try_except {A X} (f : World -> X) (body : M A) handler :
  keeps f body -> (forall e, keeps f (handler e)) -> keeps f (try_except body handler).
Proof.
  intros Hb Hh w. unfold try_except. specialize (Hb w).
  destruct (body w) as [[a|e|] w1]; simpl in *; auto.
  now rewrite Hh.
Qed.

Lemma keeps_try_finally {A X} (f : World -> X) (body : M A) fin :
  keeps f body -> keeps f fin -> keeps f (try_finally body fin).
Proof.
  intros Hb Hf w. unfold try_finally. specialize (Hb w).
  destruct (body w) as [[a|e|] w1]; simpl in *; auto;
    specialize (Hf w1); destruct (fin w1) as [[[]|e'|] w2]; simpl in *; congruence.
Qed.

Lemma keeps_for_each {A X} (f : World -> X) (xs : list A) (body : A -> M unit) :
  (forall x, keeps f (body x)) -> keeps f (for_each xs body).
Proof.
  intros Hb. induction xs as [|x xs IH]; cbn [for_each].
  - apply keeps_ret.
  - apply keeps_bind; [apply Hb | intros _; exact IH].
Qed.

Section Steadily.
Context {X : Type} (f : World -> X) `{!Steady f}.

Lemma keeps_emit evs : calls_in evs = [] -> keeps f (modify (emit evs)).
Proof. intros Hevs. apply keeps_modify. intros w. now apply steady_events. Qed.

Lemma keeps_log level msg : keeps f (log level msg).
Proof. now apply keeps_emit. Qed.

Lemma keeps_draw : keeps f (draw env).
Proof. intros w. apply steady_draws. Qed.

Lemma keeps_sleep_uniform lo hi : keeps f (sleep_uniform env lo hi).
Proof. apply keeps_bind; [apply keeps_draw | intros _; now apply keeps_emit]. Qed.

Lemma keeps_random_below percent : keeps f (random_below env percent).
Proof. apply keeps_bind; [apply keeps_draw | intros r; apply keeps_ret]. Qed.

Lemma keeps_randint lo hi : keeps f (randint env lo hi).
Proof. apply keeps_bind; [apply keeps_draw | intros r; apply keeps_ret]. Qed.

Lemma keeps_timeout_of key : keeps f (timeout_of cfg key).
Proof. unfold timeout_of. destruct (_ !! _); [apply keeps_ret | apply keeps_raise]. Qed.

Lemma keeps_load_global name : keeps f (load_global name).
Proof. unfold load_global. destruct (existsb _ _); [apply keeps_ret | apply keeps_raise]. Qed.

Lemma keeps_human_delay lo hi : keeps f (_human_delay env cfg lo hi).
Proof.
  unfold _human_delay.
  apply keeps_bind; [|intros a; apply keeps_bind; [|intros b; apply keeps_sleep_uniform]].
  - destruct lo as [v|]; [destruct (v =? 0)%Z|];
      solve [apply keeps_ret | apply keeps_timeout_of].
  - destruct hi as [v|]; [destruct (v =? 0)%Z|];
      solve [apply keeps_ret | apply keeps_timeout_of].
Qed.

Lemma keeps_update email st d : keeps f (update_account_status env email st d).
Proof.
  intros w. rewrite update_account_status_run. cbn [snd].
  set (h := <[email := _]> _). set (c := next_clock _ _).
  set (evs := [EvWriteHistory h; _]).
  change (f (emit evs (set_clock c (set_account_history h w))) = f w).
  now rewrite steady_events, steady_clock, steady_history.
Qed.

Lemma keeps_issue c :
  (forall w, f (emit [EvCall c] w) = f w) -> keeps f (issue env c).
Proof. intros Hc w. rewrite issue_run. apply Hc. Qed.

Lemma keeps_page_call meth c :
  (forall w, f (emit [EvCall c] w) = f w) -> keeps f (page_call env meth c).
Proof.
  intros Hc. apply keeps_bind; [apply keeps_get|].
  intros [p|]; [now apply keeps_issue | apply keeps_raise].
Qed.

Lemma keeps_elem_call meth v c :
  (forall h w, f (emit [EvCall (c h)] w) = f w) -> keeps f (elem_call env meth v c).
Proof. intros Hc. destruct v; first [now apply keeps_issue | apply keeps_raise]. Qed.

End Steadily.

End Frames.

(** One step of a proof that an operation keeps an observation. *)
Ltac keeping_step :=
  lazymatch goal with
  | |- keeps _ (ret _) => apply keeps_ret
  | |- keeps _ (raise _) => apply keeps_raise
  | |- keeps _ (get _) => apply keeps_get
  | |- keeps _ (update_account_status _ _ _ _) =>
      apply keeps_update; try typeclasses eauto
  | |- keeps _ (_human_delay _ _ _ _) =>
      apply keeps_human_delay; try typeclasses eauto
  | |- keeps _ (log _ _) => apply keeps_log; try typeclasses eauto
  | |- keeps _ (draw _) => apply keeps_draw; try typeclasses eauto
  | |- keeps _ (sleep_uniform _ _ _) =>
      apply keeps_sleep_uniform; try typeclasses eauto
  | |- keeps _ (random_below _ _) =>
      apply keeps_random_below; try typeclasses eauto
  | |- keeps _ (randint _ _ _) => apply keeps_randint; try typeclasses eauto
  | |- keeps _ (load_global _) => apply keeps_load_global
  | |- keeps _ (page_call _ _ _) =>
      apply keeps_page_call; try typeclasses eauto; intros ?
  | |- keeps _ (elem_call _ _ _ _) =>
      apply keeps_elem_call; try typeclasses eauto; intros ? ?
  | |- keeps _ (issue _ _) => apply keeps_issue; try typeclasses eauto; intros ?
  | |- keeps _ (modify _) => apply keeps_modify; intros ?
  | |- keeps _ (for_each _ _) => apply keeps_for_each; intros ?
  | |- keeps _ (bind _ _) => apply keeps_bind; [|intros ?]
  | |- keeps _ (try_except _ _) => apply keeps_try_except; [|intros ?]
  | |- keeps _ (try_finally _ _) => apply keeps_try_finally
  | |- keeps _ (match ?x with _ => _ end) => destruct x
  end.

(** Operations that always return. *)
Section Returning.
Context (env : Env) (cfg : TLSConfig).

Lemma returns_ret {A} (a : A) : ends_in returned (ret a).
Proof. intros w. now exists a. Qed.

Lemma returns_get {A} (f : World -> A) : ends_in returned (get f).
Proof. intros w. now eexists. Qed.

Lemma returns_modify f : ends_in returned (modify f).
Proof. intros w. now exists tt. Qed.

Lemma returns_bind {A B} (m : M A) (k : A -> M B) :
  ends_in returned m -> (forall a, ends_in returned (k a)) ->
  ends_in returned (bind m k).
Proof.
  intros Hm Hk. apply (ends_bind returned); auto;
    unfold returned; intros;
    match goal with H : exists _, _ |- _ => destruct H; discriminate end.
Qed.

(** A [try] whose handler always returns turns every failure into a
    result. *)
Lemma returns_try_except {A} (body : M A) (handler : PyExn -> M A) :
  ends_in comes_back body -> (forall e, ends_in returned (handler e)) ->
  ends_in returned (try_except body handler).
Proof.
  intros Hb Hh. apply (ends_try_except comes_back); auto.
  - intros a w _. now exists a.
  - unfold comes_back. intros w H. now elim H.
Qed.

Lemma returns_log level msg : ends_in returned (log level msg).
Proof. apply returns_modify. Qed.

Lemma returns_draw : ends_in returned (draw env).
Proof. intros w. now eexists. Qed.

Lemma returns_sleep_uniform lo hi : ends_in returned (sleep_uniform env lo hi).
Proof. apply returns_bind; [apply returns_draw | intros _; apply returns_modify]. Qed.

Lemma returns_random_below percent : ends_in returned (random_below env percent).
Proof. apply returns_bind; [apply returns_draw | intros r; apply returns_ret]. Qed.

Lemma returns_randint lo hi : ends_in returned (randint env lo hi).
Proof. apply returns_bind; [apply returns_draw | intros r; apply returns_ret]. Qed.

Lemma returns_update email st d :
  ends_in returned (update_account_status env email st d).
Proof. intros w. rewrite update_run. now exists tt. Qed.

(** With both bounds given and non-zero the configuration is not read. *)
Lemma returns_human_delay lo hi :
  lo <> 0%Z -> hi <> 0%Z -> ends_in returned (_human_delay env cfg (Some lo) (Some hi)).
Proof. intros Hlo Hhi w. rewrite human_delay_run by assumption. now exists tt. Qed.

Lemma returns_notification issue_type text account :
  ends_in returned (send_security_notification env issue_type text account).
Proof.
  apply returns_try_except.
  - apply returned_halts.
    apply returns_bind; [intros w; now eexists|]. intros stamp.
    apply returns_bind; [apply returns_modify|]. intros _.
    apply returns_bind; [apply returns_log | intros _; apply returns_ret].
  - intros e. apply returns_bind; [apply returns_log | intros _; apply returns_ret].
Qed.

End Returning.

(** One step of a proof that an operation always returns. *)
Ltac returning_step :=
  first
    [ apply returns_ret | apply returns_get | apply returns_modify
    | apply returns_update | apply returns_log | apply returns_draw
    | apply returns_sleep_uniform | apply returns_random_below
    | apply returns_randint | apply returns_notification
    | apply returns_human_delay; discriminate
    | apply returns_bind; [|intros ?]
    | match goal with
      | |- ends_in returned (match ?x with _ => _ end) => destruct x
      end ].

Ltac returning := repeat returning_step.

(** ** _handle_cloudflare *)

Section Cloudflare.
Context (env : Env) (cfg : TLSConfig).

(** The scan of the selectors swallows every failure of its waits. *)
Lemma cloudflare_scan_returns timeout selectors :
  ends_in returned (cloudflare_scan env cfg timeout selectors).
Proof.
  induction selectors as [|selector rest IH]; cbn [cloudflare_scan].
  - apply returns_ret.
  - apply returns_bind.
    + apply returns_try_except; [halting | intros e; returning].
    + intros [|]; [apply returns_ret | exact IH].
Qed.

Lemma cloudflare_scan_keeps {X} (f : World -> X) `{!Steady f} timeout selectors :
  (forall sel state t w, f (emit [EvCall (WaitForSelector sel state t)] w) = f w) ->
  keeps f (cloudflare_scan env cfg timeout selectors).
Proof.
  intros Hf.
  induction selectors as [|selector rest IH]; cbn [cloudflare_scan].
  - apply keeps_ret.
  - apply keeps_bind.
    + apply keeps_try_except.
      * apply keeps_bind; [apply keeps_page_call; first [typeclasses eauto | apply Hf]|].
        intros challenge. destruct (truthy challenge); [|apply keeps_ret].
        apply keeps_bind; [now apply keeps_log|]. intros _.
        apply keeps_bind; [apply keeps_page_call; first [typeclasses eauto | apply Hf]|].
        intros _.
        apply keeps_bind; [now apply keeps_human_delay | intros _; apply keeps_ret].
      * intros e. apply keeps_bind; [now apply keeps_log | intros _; apply keeps_ret].
    + intros [|]; [apply keeps_ret | exact IH].
Qed.

(** X8. The outcome of _handle_cloudflare (lines 1040-1070) is decided by
    its last wait alone. Whatever the selector waits of the scan answer,
    time-outs of a detected challenge included, the function returns when
    the page is open and [wait_for_load_state("networkidle")] succeeds; in
    every other case it raises "Failed to bypass Cloudflare protection",
    and nothing else. *)
Theorem cloudflare_outcome_is_the_last_wait timeout w :
  let idle := WaitForLoadState "networkidle" in
  (_handle_cloudflare env cfg timeout w).1 =
  match page w, driver env idle (calls_of idle (trace w)) with
  | Some _, Ok _ => Ret tt
  | _, _ => Raise (Exception "Failed to bypass Cloudflare protection")
  end.
Proof.
  intros idle. unfold _handle_cloudflare, try_except.
  unfold bind at 1.
  pose proof (cloudflare_scan_returns timeout cloudflare_selectors w) as [[] Hret].
  pose proof (cloudflare_scan_keeps page timeout cloudflare_selectors
                ltac:(reflexivity) w) as Hpage.
  assert (Hcalls : calls_of idle
                     (trace (cloudflare_scan env cfg timeout cloudflare_selectors w).2) =
                   calls_of idle (trace w)).
  { apply (cloudflare_scan_keeps (fun w => calls_of idle (trace w))).
    intros sel state t w0. cbn [trace emit].
    rewrite calls_of_app, calls_of_one_other by discriminate. lia. }
  destruct (cloudflare_scan env cfg timeout cloudflare_selectors w) as [o w1].
  cbn [fst snd] in *. subst o. cbv beta iota.
  unfold bind at 1. unfold page_wait_for_load_state.
  rewrite <- Hpage, <- Hcalls. fold idle.
  destruct (page w1) as [p|] eqn:Hp.
  - rewrite (page_call_open env _ _ _ _ Hp), issue_run.
    destruct (driver env idle _); [|reflexivity].
    cbv beta iota. rewrite human_delay_run by discriminate. reflexivity.
  - rewrite (page_call_closed env _ _ _ Hp). reflexivity.
Qed.

End Cloudflare.

(** ** _human_type *)

Section Typing.
Context (env : Env) (cfg : TLSConfig).

Lemma logs_in_app tr1 tr2 :
  logs_in (tr1 ++ tr2)%list = (logs_in tr1 ++ logs_in tr2)%list.
Proof.
  induction tr1 as [|[c| | | |] tr1 IH]; simpl; auto. now rewrite IH.
Qed.

(** A run of _human_type (lines 699-711) on a text that is not empty. *)
Lemma human_type_run selector c rest w :
  let first := String c EmptyString in
  let w1 := emit [EvCall (Click selector)] w in
  let w2 := emit [EvCall (Type_ selector first)] w1 in
  let fail e w' := (@Raise unit e,
                    emit [EvLog "error" ("Error during human typing: " ++ exn_msg e)] w') in
  _human_type env selector (String c rest) w =
  match page w with
  | None => fail (AttributeError "'NoneType' object has no attribute 'click'") w
  | Some _ =>
      match driver env (Click selector) (calls_of (Click selector) (trace w)) with
      | Err e => fail e w1
      | Ok _ =>
          match driver env (Type_ selector first)
                  (calls_of (Type_ selector first) (trace w1)) with
          | Err e => fail e w2
          | Ok _ => fail (NameError "TIMING") w2
          end
      end
  end.
Proof.
  cbv zeta. unfold _human_type, try_except, _human_type_body.
  cbn [chars for_each]. unfold page_click, page_type, page_call, get, bind.
  destruct (page w) as [p|] eqn:Hp; [|reflexivity].
  rewrite issue_run. destruct (driver env (Click selector) _) as [v|e]; [|reflexivity].
  cbn [page emit]. rewrite Hp, issue_run.
  destruct (driver env (Type_ _ _) _) as [v'|e]; reflexivity.
Qed.

(** X9. _human_type (lines 699-711) never gets past the first character of
    a text: after the click and at most one typed character it raises, the
    pause between characters reading the unbound name [TIMING], and the
    failure is logged before it is passed on. *)
Theorem human_type_stops_at_first_character selector c rest w :
  let r := _human_type env selector (String c rest) w in
  exists e issued,
    r.1 = Raise e /\
    calls_in (trace r.2) = (calls_in (trace w) ++ issued)%list /\
    (issued = [] \/ issued = [Click selector] \/
     issued = [Click selector; Type_ selector (String c EmptyString)]) /\
    last (logs_in (trace r.2)) = Some ("error", "Error during human typing: " ++ exn_msg e).
Proof.
  cbv zeta. rewrite human_type_run. cbv zeta.
  assert (Hlast : forall tr level msg,
             last (logs_in (tr ++ [EvLog level msg])) = Some (level, msg)).
  { intros. rewrite logs_in_app. cbn [logs_in]. apply last_snoc. }
  destruct (page w) as [p|].
  - destruct (driver env (Click selector) _) as [v|e].
    + destruct (driver env (Type_ _ _) _) as [v'|e];
        eexists; exists [Click selector; Type_ selector (String c EmptyString)];
        cbn [fst snd trace emit]; rewrite Hlast, !calls_in_app;
        cbn [calls_in]; rewrite app_nil_r, <- app_assoc; auto 6.
    + eexists; exists [Click selector]; cbn [fst snd trace emit].
      rewrite Hlast, !calls_in_app. cbn [calls_in]. rewrite app_nil_r. auto 6.
  - eexists; exists []; cbn [fst snd trace emit].
    rewrite Hlast, !calls_in_app. cbn [calls_in]. auto 6.
Qed.

(** One round of the loop of lines 187-189. *)
Lemma type_char_run selector char w :
  (_ <- page_type env selector char ;; _human_delay env cfg (Some 50%Z) (Some 150%Z)) w =
  match page w with
  | None => (Raise (AttributeError "'NoneType' object has no attribute 'type'"), w)
  | Some _ =>
      let w1 := emit [EvCall (Type_ selector char)] w in
      match driver env (Type_ selector char) (calls_of (Type_ selector char) (trace w)) with
      | Ok _ => (Ret tt, emit [EvSleep 50 150] (set_draws (S (draws w1)) w1))
      | Err e => (Raise e, w1)
      end
  end.
Proof.
  unfold page_type, page_call, get, bind.
  destruct (page w) as [p|]; [|reflexivity].
  rewrite issue_run. destruct (driver env _ _); [|reflexivity].
  now rewrite human_delay_run.
Qed.

Lemma type_loop_calls selector cs : forall w o w',
  for_each cs (fun char =>
    _ <- page_type env selector char ;;
    _human_delay env cfg (Some 50%Z) (Some 150%Z)) w = (o, w') ->
  exists issued,
    calls_in (trace w') = (calls_in (trace w) ++ issued)%list /\
    (issued `prefix_of` map (Type_ selector) cs) /\
    (o = Ret tt -> issued = map (Type_ selector) cs) /\
    o <> Diverge.
Proof.
  induction cs as [|char cs IH]; intros w o w' Hrun; cbn [for_each] in Hrun.
  - injection Hrun as <- <-. exists []. rewrite app_nil_r.
    split; [|split; [|split]]; auto; discriminate.
  - unfold bind at 1 in Hrun. rewrite type_char_run in Hrun.
    destruct (page w) as [p|].
    + cbv zeta in Hrun. destruct (driver env _ _) as [v|e].
      * apply IH in Hrun as (issued & Hcalls & Hpre & Hall & Hback).
        exists (Type_ selector char :: issued).
        rewrite Hcalls. cbn [trace emit set_draws].
        rewrite !calls_in_app. cbn [calls_in map]. rewrite app_nil_r, <- app_assoc.
        split; [|split; [|split]]; auto.
        -- now apply prefix_cons.
        -- intros Hret. now rewrite Hall.
      * injection Hrun as <- <-.
        exists [Type_ selector char]. cbn [trace emit].
        rewrite calls_in_app. cbn [calls_in map].
        split; [|split; [|split]]; auto; try discriminate.
        apply prefix_cons, prefix_nil.
    + injection Hrun as <- <-. exists []. rewrite app_nil_r.
      split; [|split; [|split]]; auto; try discriminate. apply prefix_nil.
Qed.

(** X10. _human_type of lines 182-189 issues its driver calls in the order
    of the text: the click, the fill that empties the field, then one
    [type] call per character. On every run the calls issued are a prefix
    of that sequence, and they are the whole of it when the function
    returns. *)
Theorem human_type_L182_types_in_order selector text w :
  let r := _human_type_L182 env cfg selector text w in
  let script := Click selector :: Fill selector EmptyString ::
                map (Type_ selector) (chars text) in
  exists issued,
    calls_in (trace r.2) = (calls_in (trace w) ++ issued)%list /\
    (issued `prefix_of` script) /\
    (r.1 = Ret tt -> issued = script) /\
    r.1 <> Diverge.
Proof.
  cbv zeta. destruct (_human_type_L182 env cfg selector text w) as [o w'] eqn:Hrun.
  cbn [fst snd]. unfold _human_type_L182 in Hrun.
  unfold bind at 1 in Hrun. unfold page_click, page_call at 1, get, bind at 1 in Hrun.
  destruct (page w) as [p|] eqn:Hp.
  2:{ injection Hrun as <- <-. exists []. rewrite app_nil_r.
      split; [|split; [|split]]; auto; try discriminate. apply prefix_nil. }
  rewrite issue_run in Hrun.
  destruct (driver env (Click selector) _) as [v|e].
  2:{ injection Hrun as <- <-. exists [Click selector]. cbn [trace emit].
      rewrite calls_in_app. cbn [calls_in].
      split; [|split; [|split]]; auto; try discriminate.
      apply prefix_cons, prefix_nil. }
  unfold bind at 1 in Hrun. rewrite human_delay_run in Hrun by discriminate.
  set (w1 := emit [EvSleep 100 300] _) in Hrun.
  assert (Hp1 : page w1 = Some p) by exact Hp.
  assert (Hc1 : calls_in (trace w1) = (calls_in (trace w) ++ [Click selector])%list).
  { subst w1. cbn [trace emit set_draws]. rewrite !calls_in_app. cbn [calls_in].
    now rewrite app_nil_r. }
  unfold bind at 1 in Hrun. unfold page_fill in Hrun.
  rewrite (page_call_open env _ _ w1 p Hp1), issue_run in Hrun.
  destruct (driver env (Fill _ _) _) as [v'|e].
  2:{ injection Hrun as <- <-.
      exists [Click selector; Fill selector EmptyString]. cbn [trace emit].
      rewrite calls_in_app, Hc1. cbn [calls_in]. rewrite <- app_assoc.
      split; [|split; [|split]]; auto; try discriminate.
      apply prefix_cons, prefix_cons, prefix_nil. }
  apply type_loop_calls in Hrun as (issued & Hcalls & Hpre & Hall & Hback).
  exists (Click selector :: Fill selector EmptyString :: issued).
  rewrite Hcalls. cbn [trace emit]. rewrite calls_in_app, Hc1.
  cbn [calls_in]. rewrite <- !app_assoc.
  split; [|split; [|split]]; auto.
  - now apply prefix_cons, prefix_cons.
  - intros Hret. now rewrite Hall.
Qed.

End Typing.

(** ** login *)

Section Login.
Context (env : Env) (cfg : TLSConfig).

Lemma human_type_halts selector text :
  ends_in comes_back (_human_type env selector text).
Proof. unfold _human_type, _human_type_body, timing. halting. Qed.


Lemma human_type_keeps {X} (f : World -> X) `{!Steady f} selector text :
  (forall s w, f (emit [EvCall (Click s)] w) = f w) ->
  (forall s ch w, f (emit [EvCall (Type_ s ch)] w) = f w) ->
  keeps f (_human_type env selector text).
Proof.
  intros Hclick Htype.
  unfold _human_type, _human_type_body, timing, page_click, page_type.
  repeat keeping_step; auto.
Qed.




Lemma flags_bind {A} (m : M A) (k : A -> M bool) :
  keeps logged_in m -> ends_in comes_back m ->
  (forall a, flags_success (k a)) -> flags_success (bind m k).
Proof.
  intros Hkeep Hback Hk w. unfold bind.
  specialize (Hkeep w). specialize (Hback w). unfold comes_back in Hback.
  destruct (m w) as [[a|e|] w1]; cbn [fst snd] in *; auto.
  specialize (Hk a w1). destruct ((k a w1).1); auto. congruence.
Qed.

(** X11. login (lines 1073-1115) never raises and never hangs: whatever
    the driver does, it answers True or False. The flag [self.logged_in]
    follows the answer: it is set when the answer is True and is left as
    it was when the answer is False. *)
Theorem login_answers_and_flags email password w :
  let r := login env cfg email password w in
  exists b, r.1 = Ret b /\ logged_in r.2 = (b || logged_in w).
Proof.
  cbv zeta. unfold login, try_except.
  match goal with |- context [(?body w)] =>
    assert (Hbody : flags_success body); [|specialize (Hbody w); destruct (body w) as [[b|e|] w1]]
  end.
  - apply flags_bind; [now apply human_type_keeps | apply human_type_halts|]. intros _.
    apply flags_bind; [now apply keeps_human_delay | apply halts_human_delay|]. intros _.
    apply flags_bind; [now apply human_type_keeps | apply human_type_halts|]. intros _.
    apply flags_bind; [now apply keeps_human_delay | apply halts_human_delay|]. intros _.
    apply flags_bind; [now apply keeps_page_call | apply halts_page_call|].
    intros login_button.
    apply flags_bind;
      [destruct (truthy login_button); [apply keeps_ret | apply keeps_raise]
      |destruct (truthy login_button); [apply halts_ret | apply halts_raise]|].
    intros _.
    apply flags_bind; [now apply keeps_elem_call | apply halts_elem_call|]. intros _.
    apply flags_bind; [now apply keeps_human_delay | apply halts_human_delay|]. intros _.
    apply flags_bind.
    { apply keeps_try_except; [now apply keeps_page_call | intros e; apply keeps_raise]. }
    { halting. }
    intros _.
    apply flags_bind; [now apply keeps_page_call | apply halts_page_call|].
    intros error_message.
    apply flags_bind.
    { destruct (truthy error_message); [|apply keeps_ret].
      apply keeps_bind; [now apply keeps_elem_call | intros t; apply keeps_raise]. }
    { halting. }
    intros _ w0. cbn. auto.
  - cbn [fst snd] in *. destruct Hbody as [-> Hflag]. exists true. now rewrite Hflag.
  - cbn [fst snd] in *. exists false. cbn. split; [reflexivity | exact Hbody].
  - destruct Hbody.
Qed.

Lemma login_returns email password :
  ends_in returned (login env cfg email password).
Proof.
  unfold login. apply returns_try_except; [|intros e; returning].
  repeat first [apply human_type_halts | halting_step].
Qed.





End Login.


(** ** The login-form retry loops, for every driver *)

Section RetryBounds.
Context (env : Env) (cfg : TLSConfig).

(** One round of the loop of lines 1155-1171, whatever the driver answers. *)
Lemma round_cases email M rc w o w1 :
  try_except
    (_ <- page_wait_for_selector env "input[type='email']" None 10000 ;;
     cs <- get current_step ;;
     update_account_status env email AccountStatus.INIT
       ("Step " ++ pretty cs ++ ": Login form found, starting authentication") ;;
     ret None)
    (fun e =>
       let retry_count := (rc + 1)%nat in
       cs <- get current_step ;;
       if (retry_count =? M)%nat then
         update_account_status env email AccountStatus.LOGIN_FAILED
           ("Step " ++ pretty cs ++ ": Login form not found after "
            ++ pretty M ++ " retries") ;;
         raise (Exception "Login form not found after retries")
       else
         update_account_status env email AccountStatus.INIT
           ("Step " ++ pretty cs ++ ": Retrying to find login form (attempt "
            ++ pretty retry_count ++ "/" ++ pretty M ++ ")") ;;
         _human_delay env cfg (Some 5000%Z) (Some 8000%Z) ;;
         _ <- page_reload env ;;
         ret (Some retry_count)) w = (o, w1) ->
  calls_of form_check (trace w1) <= calls_of form_check (trace w) + 1 /\
  match o with
  | Ret None => calls_of Reload (trace w1) = calls_of Reload (trace w)
  | Ret (Some rc') =>
      rc' = rc + 1 /\ rc + 1 <> M /\
      calls_of Reload (trace w1) = calls_of Reload (trace w) + 1
  | Raise _ =>
      calls_of Reload (trace w1) <=
      calls_of Reload (trace w) + (if (rc + 1 =? M)%nat then 0 else 1)
  | Diverge => False
  end.
Proof.
  intros Hrun. unfold try_except in Hrun.
  assert (Hhandler : forall w0 o w1,
    (let retry_count := (rc + 1)%nat in
       cs <- get current_step ;;
       if (retry_count =? M)%nat then
         update_account_status env email AccountStatus.LOGIN_FAILED
           ("Step " ++ pretty cs ++ ": Login form not found after "
            ++ pretty M ++ " retries") ;;
         raise (Exception "Login form not found after retries")
       else
         update_account_status env email AccountStatus.INIT
           ("Step " ++ pretty cs ++ ": Retrying to find login form (attempt "
            ++ pretty retry_count ++ "/" ++ pretty M ++ ")") ;;
         _human_delay env cfg (Some 5000%Z) (Some 8000%Z) ;;
         _ <- page_reload env ;;
         ret (Some retry_count)) w0 = (o, w1) ->
    calls_of form_check (trace w1) = calls_of form_check (trace w0) /\
    match o with
    | Ret None => False
    | Ret (Some rc') =>
        rc' = rc + 1 /\ rc + 1 <> M /\
        calls_of Reload (trace w1) = calls_of Reload (trace w0) + 1
    | Raise _ =>
        calls_of Reload (trace w1) <=
        calls_of Reload (trace w0) + (if (rc + 1 =? M)%nat then 0 else 1)
    | Diverge => False
    end).
  { clear. intros w0 o w1 Hh. cbv zeta in Hh.
    unfold bind at 1, get at 1 in Hh.
    destruct (rc + 1 =? M)%nat eqn:Hlast.
    - unfold bind in Hh. rewrite update_run in Hh. cbn [raise] in Hh.
      injection Hh as <- <-. rewrite !record_status_calls. lia.
    - apply Nat.eqb_neq in Hlast.
      unfold bind at 1 in Hh. rewrite update_run in Hh.
      unfold bind at 1 in Hh. rewrite human_delay_run in Hh by lia.
      unfold bind at 1, page_reload, page_call, bind, get in Hh.
      cbn [page emit set_draws] in Hh. rewrite record_status_page in Hh.
      destruct (page w0) as [p|].
      + rewrite issue_run in Hh.
        destruct (driver env Reload _); injection Hh as <- <-;
          (split; [count_calls; lia|]); repeat split; auto; count_calls; lia.
      + injection Hh as <- <-. split; count_calls; lia. }
  unfold bind at 1, page_wait_for_selector, page_call, bind at 1, get at 1 in Hrun.
  destruct (page w) as [p|].
  - rewrite issue_run in Hrun. fold form_check in Hrun.
    destruct (driver env form_check _) as [v|e].
    + unfold bind, get in Hrun. rewrite update_run in Hrun. cbn [ret] in Hrun.
      injection Hrun as <- <-. split; count_calls; lia.
    + apply Hhandler in Hrun as [Hc Ho].
      revert Hc. count_calls. intros Hc. split; [lia|].
      destruct o as [[rc'|]| |]; try tauto; revert Ho; count_calls; tauto.
  - apply Hhandler in Hrun as [Hc Ho].
    split; [lia|]. destruct o as [[rc'|]| |]; tauto.
Qed.

(** One round of the loop of lines 347-356. *)
Lemma round_cases_L345 M rc w o w1 :
  try_except
    (_ <- page_wait_for_selector env "input[type='email']" None 10000 ;;
     ret None)
    (fun e =>
       let retry_count := (rc + 1)%nat in
       if (retry_count =? M)%nat then
         raise (Exception "Login form not found after retries")
       else
         _human_delay env cfg (Some 5000%Z) (Some 8000%Z) ;;
         _ <- page_reload env ;;
         ret (Some retry_count)) w = (o, w1) ->
  calls_of form_check (trace w1) <= calls_of form_check (trace w) + 1 /\
  match o with
  | Ret None => calls_of Reload (trace w1) = calls_of Reload (trace w)
  | Ret (Some rc') =>
      rc' = rc + 1 /\ rc + 1 <> M /\
      calls_of Reload (trace w1) = calls_of Reload (trace w) + 1
  | Raise _ =>
      calls_of Reload (trace w1) <=
      calls_of Reload (trace w) + (if (rc + 1 =? M)%nat then 0 else 1)
  | Diverge => False
  end.
Proof.
  intros Hrun. unfold try_except in Hrun.
  assert (Hhandler : forall w0 o w1,
    (let retry_count := (rc + 1)%nat in
       if (retry_count =? M)%nat then
         raise (Exception "Login form not found after retries")
       else
         _human_delay env cfg (Some 5000%Z) (Some 8000%Z) ;;
         _ <- page_reload env ;;
         ret (Some retry_count)) w0 = (o, w1) ->
    calls_of form_check (trace w1) = calls_of form_check (trace w0) /\
    match o with
    | Ret None => False
    | Ret (Some rc') =>
        rc' = rc + 1 /\ rc + 1 <> M /\
        calls_of Reload (trace w1) = calls_of Reload (trace w0) + 1
    | Raise _ =>
        calls_of Reload (trace w1) <=
        calls_of Reload (trace w0) + (if (rc + 1 =? M)%nat then 0 else 1)
    | Diverge => False
    end).
  { clear. intros w0 o w1 Hh. cbv zeta in Hh.
    destruct (rc + 1 =? M)%nat eqn:Hlast.
    - injection Hh as <- <-. lia.
    - apply Nat.eqb_neq in Hlast.
      unfold bind at 1 in Hh. rewrite human_delay_run in Hh by lia.
      unfold bind at 1, page_reload, page_call, bind, get in Hh.
      cbn [page emit set_draws] in Hh.
      destruct (page w0) as [p|].
      + rewrite issue_run in Hh.
        destruct (driver env Reload _); injection Hh as <- <-;
          (split; [count_calls; lia|]); repeat split; auto; count_calls; lia.
      + injection Hh as <- <-. split; count_calls; lia. }
  unfold bind at 1, page_wait_for_selector, page_call, bind at 1, get at 1 in Hrun.
  destruct (page w) as [p|].
  - rewrite issue_run in Hrun. fold form_check in Hrun.
    destruct (driver env form_check _) as [v|e].
    + cbn [ret] in Hrun. injection Hrun as <- <-. split; count_calls; lia.
    + apply Hhandler in Hrun as [Hc Ho].
      revert Hc. count_calls. intros Hc. split; [lia|].
      destruct o as [[rc'|]| |]; try tauto; revert Ho; count_calls; tauto.
  - apply Hhandler in Hrun as [Hc Ho].
    split; [lia|]. destruct o as [[rc'|]| |]; tauto.
Qed.

(** Both loops end within the rounds that [max_retries] leaves. *)
Lemma loop_bounded email : forall fuel M rc w o w',
  M - rc <= fuel ->
  login_form_loop env cfg email fuel M rc w = (o, w') ->
  o <> Diverge /\
  calls_of form_check (trace w') <= calls_of form_check (trace w) + (M - rc) /\
  calls_of Reload (trace w') <= calls_of Reload (trace w) + (M - rc - 1).
Proof.
  induction fuel as [|fuel IH]; intros M rc w o w' Hfuel Hrun;
    cbn [login_form_loop] in Hrun;
    destruct (rc <? M)%nat eqn:Hlt;
    try (injection Hrun as <- <-; repeat split; try discriminate; lia).
  - apply Nat.ltb_lt in Hlt. lia.
  - apply Nat.ltb_lt in Hlt. unfold bind at 1 in Hrun.
    destruct (try_except _ _ w) as [o1 w1] eqn:Hround.
    apply round_cases in Hround as [Hc Ho].
    destruct o1 as [[rc'|]| |]; [| | |destruct Ho].
    + destruct Ho as (-> & Hne & Hr).
      apply IH in Hrun as (Hback & Hc' & Hr'); [|lia].
      repeat split; [exact Hback | lia | lia].
    + injection Hrun as <- <-. repeat split; [discriminate | lia | lia].
    + injection Hrun as <- <-.
      destruct (rc + 1 =? M)%nat eqn:Hlast;
        [|apply Nat.eqb_neq in Hlast]; repeat split; try discriminate; lia.
Qed.

Lemma loop_bounded_L345 : forall fuel M rc w o w',
  M - rc <= fuel ->
  login_form_loop_L345 env cfg fuel M rc w = (o, w') ->
  o <> Diverge /\
  calls_of form_check (trace w') <= calls_of form_check (trace w) + (M - rc) /\
  calls_of Reload (trace w') <= calls_of Reload (trace w) + (M - rc - 1).
Proof.
  induction fuel as [|fuel IH]; intros M rc w o w' Hfuel Hrun;
    cbn [login_form_loop_L345] in Hrun;
    destruct (rc <? M)%nat eqn:Hlt;
    try (injection Hrun as <- <-; repeat split; try discriminate; lia).
  - apply Nat.ltb_lt in Hlt. lia.
  - apply Nat.ltb_lt in Hlt. unfold bind at 1 in Hrun.
    destruct (try_except _ _ w) as [o1 w1] eqn:Hround.
    apply round_cases_L345 in Hround as [Hc Ho].
    destruct o1 as [[rc'|]| |]; [| | |destruct Ho].
    + destruct Ho as (-> & Hne & Hr).
      apply IH in Hrun as (Hback & Hc' & Hr'); [|lia].
      repeat split; [exact Hback | lia | lia].
    + injection Hrun as <- <-. repeat split; [discriminate | lia | lia].
    + injection Hrun as <- <-.
      destruct (rc + 1 =? M)%nat eqn:Hlast;
        [|apply Nat.eqb_neq in Hlast]; repeat split; try discriminate; lia.
Qed.

Lemma wait_for_login_form_halts email :
  ends_in comes_back (wait_for_login_form env cfg email).
Proof.
  intros w. unfold wait_for_login_form. cbv zeta.
  destruct (login_form_loop env cfg email 3 3 0 w) as [o w'] eqn:Hrun.
  now apply loop_bounded in Hrun as [Hback _]; [|lia].
Qed.

(** X13. Whatever the driver answers, the wait for the login form (lines
    345-356 and 1151-1171) comes to an end, with a result or an exception,
    after at most three checks for the form and at most two reloads of the
    page. *)
Theorem login_form_wait_is_bounded email w :
  let late := wait_for_login_form env cfg email w in
  let early := wait_for_login_form_L345 env cfg w in
  (late.1 <> Diverge /\
   calls_of form_check (trace late.2) <= calls_of form_check (trace w) + 3 /\
   calls_of Reload (trace late.2) <= calls_of Reload (trace w) + 2) /\
  (early.1 <> Diverge /\
   calls_of form_check (trace early.2) <= calls_of form_check (trace w) + 3 /\
   calls_of Reload (trace early.2) <= calls_of Reload (trace w) + 2).
Proof.
  cbv zeta. unfold wait_for_login_form, wait_for_login_form_L345. cbv zeta. split.
  - destruct (login_form_loop env cfg email 3 3 0 w) as [o w'] eqn:Hrun.
    apply loop_bounded in Hrun; [exact Hrun | lia].
  - destruct (login_form_loop_L345 env cfg 3 3 0 w) as [o w'] eqn:Hrun.
    apply loop_bounded_L345 in Hrun; [exact Hrun | lia].
Qed.

End RetryBounds.

(** ** The workflows as wholes *)

Section Workflows.
Context (env : Env) (cfg : TLSConfig).

Lemma login_halts email password : ends_in comes_back (login env cfg email password).
Proof. apply returned_halts, login_returns. Qed.

Lemma cloudflare_halts timeout : ends_in comes_back (_handle_cloudflare env cfg timeout).
Proof. apply calm_halts, calm_handle_cloudflare. Qed.

Lemma setup_halts : ends_in comes_back (setup env).
Proof. unfold setup, randint. halting. Qed.

Lemma goto_center_halts center : ends_in comes_back (goto_center env cfg center).
Proof. unfold goto_center, center_url. halting. Qed.

Lemma give_up_halts : ends_in comes_back (monitor_give_up env).
Proof.
  intros w. destruct (give_up_returns_false env w) as (w' & Hrun & _).
  rewrite Hrun. discriminate.
Qed.

Lemma notification_halts issue_type text account :
  ends_in comes_back (send_security_notification env issue_type text account).
Proof. apply returned_halts, returns_notification. Qed.

Ltac halting_more :=
  repeat first
    [ apply human_type_halts | apply login_halts | apply cloudflare_halts
    | apply setup_halts | apply goto_center_halts | apply give_up_halts
    | apply wait_for_login_form_halts | apply notification_halts
    | halting_step ].

(** X14. start_workflow (lines 1117-1467) never answers True and never
    hangs: the only [return] its [try] block reaches is the [return False]
    of line 1461, so every run ends with False or with an exception. *)
Theorem start_workflow_never_succeeds email password center w :
  let r := start_workflow env cfg email password center w in
  r.1 <> Ret true /\ r.1 <> Diverge.
Proof.
  cbv zeta. revert w.
  change (ends_in (fun o _ => o <> Ret true /\ o <> Diverge)
            (start_workflow env cfg email password center)).
  set (Q := fun (o : Outcome bool) (_ : World) => o <> Ret true /\ o <> Diverge).
  assert (Hraise : forall e w, Q (Raise e) w) by (intros; split; discriminate).
  unfold start_workflow.
  apply (ends_try_finally Q Q comes_back).
  - apply (ends_try_except Q Q); auto.
    + unfold start_workflow_body.
      repeat (apply ends_after; [halting_more | intros ? | exact Hraise]).
      intros w. split; discriminate.
    + intros e _. apply ends_after; [halting | intros _ | exact Hraise].
      intros w. apply Hraise.
  - halting.
  - auto.
  - intros e w _. apply Hraise.
  - unfold Q, comes_back. intros w [H|H]; tauto.
Qed.









End Workflows.


(** ** start_workflow, lines 808-868 *)

Section OneShot.
Context (env : Env) (cfg : TLSConfig).

Lemma recorded_after_update email st d (b : bool) w :
  (if b then st = AccountStatus.BOOKED
   else In st [ AccountStatus.FAILED; AccountStatus.CALENDAR_ERROR;
                AccountStatus.BOOKING_FAILED ]) ->
  result_recorded email b (record_status env email st d w).
Proof.
  intros Hst. exists st. split; [|exact Hst].
  rewrite record_status_statuses. apply last_snoc.
Qed.

(** [update_account_status(email, st); return b], from any state. *)
Lemma answer_recorded email st d (b : bool) fall fail :
  (if b then st = AccountStatus.BOOKED
   else In st [ AccountStatus.FAILED; AccountStatus.CALENDAR_ERROR;
                AccountStatus.BOOKING_FAILED ]) ->
  ends_in (stage_ends email fall fail)
    (update_account_status env email st d ;; ret (Some b)).
Proof.
  intros Hst w. unfold bind. rewrite update_run. cbn [ret fst snd stage_ends].
  now apply recorded_after_update.
Qed.

Ltac stage_step email :=
  first
    [ apply answer_recorded; cbn; tauto
    | apply ends_after;
        [solve [repeat first [apply setup_halts | halting_step]] | intros ? | reflexivity]
    | match goal with
      | |- ends_in _ (match ?x with _ => _ end) => destruct x
      end
    | (intros ?; reflexivity) ].

Lemma stage_handler email fall msg st :
  In st [ AccountStatus.FAILED; AccountStatus.CALENDAR_ERROR;
          AccountStatus.BOOKING_FAILED ] ->
  ends_in (stage_ends email fall false)
    (log "error" msg ;; update_account_status env email st EmptyString ;;
     ret (Some false)).
Proof.
  intros Hst w. unfold bind at 1, log, modify.
  apply answer_recorded. exact Hst.
Qed.

Lemma stage_try email fall (body : M (option bool)) handler :
  ends_in (stage_ends email fall true) body ->
  (forall e, ends_in (stage_ends email fall false) (handler e)) ->
  ends_in (stage_ends email fall false) (try_except body handler).
Proof.
  intros Hb Hh. now apply (ends_try_except (stage_ends email fall true)).
Qed.

Lemma stage_init_ends email :
  ends_in (stage_ends email true false) (stage_init_L808 env email).
Proof.
  unfold stage_init_L808. apply stage_try.
  - repeat stage_step email.
  - intros e. apply stage_handler. cbn. tauto.
Qed.

Lemma stage_center_ends email center :
  ends_in (stage_ends email true false) (stage_center_L808 env cfg email center).
Proof.
  unfold stage_center_L808. apply stage_try.
  - repeat stage_step email.
  - intros e. apply stage_handler. cbn. tauto.
Qed.

Lemma stage_calendar_ends email :
  ends_in (stage_ends email true false) (stage_calendar_L808 env cfg email).
Proof.
  unfold stage_calendar_L808. apply stage_try.
  - repeat stage_step email.
  - intros e. apply stage_handler. cbn. tauto.
Qed.

Lemma stage_booking_ends email :
  ends_in (stage_ends email false false) (stage_booking_L808 env email).
Proof.
  unfold stage_booking_L808. apply stage_try.
  - repeat stage_step email.
  - intros e. apply stage_handler. cbn. tauto.
Qed.

Lemma stage_then_ends email fall m k :
  ends_in (stage_ends email true false) m ->
  ends_in (stage_ends email fall false) k ->
  ends_in (stage_ends email fall false) (stage_then m k).
Proof.
  intros Hm Hk. unfold stage_then.
  apply (ends_bind_from (stage_ends email true false)); auto.
  intros [b|] w Ha; [exact Ha | apply Hk].
Qed.

(** X16. start_workflow of lines 808-868 never raises and never falls off
    its end: every run answers True or False, and the ledger agrees with the
    answer. After True the last status recorded for the account is BOOKED;
    after False it is FAILED, CALENDAR ERROR or BOOKING FAILED. *)
Theorem start_workflow_L808_answer_is_recorded email password center w :
  let r := start_workflow_L808 env cfg email password center w in
  exists b, r.1 = Ret (Some b) /\ result_recorded email b r.2.
Proof.
  cbv zeta.
  assert (H : ends_in (stage_ends email false false)
                (start_workflow_L808 env cfg email password center)).
  { unfold start_workflow_L808.
    apply stage_then_ends; [apply stage_init_ends|].
    apply stage_then_ends; [apply stage_center_ends|].
    apply stage_then_ends; [apply stage_calendar_ends | apply stage_booking_ends]. }
  specialize (H w).
  destruct (start_workflow_L808 env cfg email password center w) as [[[b|]| |] w'];
    cbn in H; try discriminate; try tauto.
  now exists b.
Qed.

End OneShot.

(** ** setup and main *)

Section Setup.
Context (env : Env).

(** Lines 224-298: the headers and the script go to the page just opened. *)
Lemma setup_tail w :
  let r := (_ <- page_call env "set_extra_http_headers" SetExtraHTTPHeaders ;;
            _ <- page_call env "add_init_script" (AddInitScript "stealth") ;;
            ret true) w in
  match r.1 with
  | Ret b => b = true /\ page r.2 <> None
  | Raise _ => True
  | Diverge => False
  end.
Proof.
  cbv zeta. unfold page_call, get, bind.
  destruct (page w) as [p|] eqn:Hp; [|exact I].
  rewrite issue_run. destruct (driver env SetExtraHTTPHeaders _); [|exact I].
  cbn [page emit]. rewrite Hp, issue_run.
  destruct (driver env (AddInitScript _) _); [|exact I].
  cbn. split; [reflexivity | congruence].
Qed.

(** X17. setup (lines 191-301) never answers False. When it answers True
    a page is installed in [self.page]; in every other case it raises the
    failure it met, after logging it. *)
Theorem setup_answers_true_with_a_page w :
  let r := setup env w in
  match r.1 with
  | Ret b => b = true /\ page r.2 <> None
  | Raise e =>
      last (logs_in (trace r.2)) = Some ("error", "Error during setup: " ++ exn_msg e)
  | Diverge => False
  end.
Proof.
  cbv zeta. revert w.
  set (P := fun (o : Outcome bool) (w : World) =>
              match o with
              | Ret b => b = true /\ page w <> None
              | Raise _ => True
              | Diverge => False
              end).
  set (Q := fun (o : Outcome bool) (w : World) =>
              match o with
              | Ret b => b = true /\ page w <> None
              | Raise e =>
                  last (logs_in (trace w)) =
                  Some ("error", "Error during setup: " ++ exn_msg e)
              | Diverge => False
              end).
  change (ends_in Q (setup env)).
  unfold setup. apply (ends_try_except P Q); auto.
  - unfold randint.
    do 10 (apply ends_after; [halting | intros ? | intros; exact I]).
    exact setup_tail.
  - intros e _ w. cbn. rewrite logs_in_app. cbn. apply last_snoc.
Qed.



End Setup.


(** ** _human_scroll *)

Section Scrolling.
Context (env : Env) (cfg : TLSConfig).

Lemma bind_agrees {A B} (m1 m2 : M A) (k1 k2 : A -> M B) w :
  m1 w = m2 w ->
  (forall a w1, m2 w = (Ret a, w1) -> k1 a w1 = k2 a w1) ->
  bind m1 k1 w = bind m2 k2 w.
Proof.
  intros Hm Hk. unfold bind. rewrite Hm.
  destruct (m2 w) as [[a|e|] w1]; auto.
Qed.

(** [random.randint(lo, hi)] stays within its bounds. *)
Lemma randint_range lo hi w a w1 :
  (lo <= hi)%Z -> randint env lo hi w = (Ret a, w1) -> (lo <= a <= hi)%Z.
Proof.
  intros Hle Hrun. unfold randint, bind, draw, ret in Hrun.
  injection Hrun as <- <-.
  pose proof (Z.mod_pos_bound (Z.of_nat (rand env (draws w))) (hi - lo + 1)
                ltac:(lia)).
  lia.
Qed.

Lemma randint_halts lo hi : ends_in comes_back (randint env lo hi).
Proof. apply returned_halts, returns_randint. Qed.

Lemma random_below_halts percent : ends_in comes_back (random_below env percent).
Proof. apply returned_halts, returns_random_below. Qed.

(** The loop of lines 729-737: each round scrolls by at least 100, so the
    rounds needed are bounded by the height left. *)
Lemma scroll_down_stable : forall fuel ph cs,
  (ph - cs <= 100 * Z.of_nat fuel)%Z ->
  forall fuel' w, fuel <= fuel' ->
    scroll_down env cfg fuel' ph cs w = scroll_down env cfg fuel ph cs w.
Proof.
  induction fuel as [|fuel IH]; intros ph cs Hleft fuel' w Hfuel.
  - destruct fuel'; cbn [scroll_down];
      (destruct (cs <? ph)%Z eqn:Hlt; [apply Z.ltb_lt in Hlt; lia | reflexivity]).
  - destruct fuel' as [|fuel']; [lia|]. cbn [scroll_down].
    destruct (cs <? ph)%Z; [|reflexivity].
    apply bind_agrees; [reflexivity|]. intros step w1 Hstep.
    apply randint_range in Hstep; [|lia].
    apply bind_agrees; [reflexivity|]. intros _ w2 _.
    apply bind_agrees; [reflexivity|]. intros _ w3 _.
    apply bind_agrees; [reflexivity|]. intros pause w4 _.
    apply bind_agrees; [reflexivity|]. intros _ w5 _.
    apply IH; lia.
Qed.

Lemma scroll_down_ends : forall fuel ph cs,
  (ph - cs <= 100 * Z.of_nat fuel)%Z ->
  ends_in (fun o _ => match o with
                    | Ret cs' => (cs' <= Z.max cs (ph + 299))%Z
                    | Raise _ => True
                    | Diverge => False
                    end)
    (scroll_down env cfg fuel ph cs).
Proof.
  induction fuel as [|fuel IH]; intros ph cs Hleft; cbn [scroll_down];
    destruct (cs <? ph)%Z eqn:Hlt;
    try (intros w; cbn; lia).
  apply Z.ltb_lt in Hlt.
  apply (ends_bind_from (fun o w => match o with
                                    | Ret a => (100 <= a <= 300)%Z
                                    | _ => False
                                    end)).
  - intros w. destruct (randint env 100 300 w) as [o w1] eqn:Hrun.
    pose proof (returns_randint env 100 300 w) as [a Ha].
    rewrite Hrun in Ha. cbn in Ha. subst o. cbn.
    eapply randint_range; [|exact Hrun]; lia.
  - intros step w Hstep. revert w.
    change (ends_in (fun o _ => match o with
                    | Ret cs' => (cs' <= Z.max cs (ph + 299))%Z
                    | Raise _ => True
                    | Diverge => False
                    end)
              (_ <- page_evaluate env ("window.scrollBy(0, " ++ pretty step ++ ")") ;;
               _human_delay env cfg (Some 100%Z) (Some 300%Z) ;;
               pause <- random_below env 20 ;;
               (if pause then _human_delay env cfg (Some 500%Z) (Some 1000%Z)
                else ret tt) ;;
               scroll_down env cfg fuel ph (cs + step))).
    do 4 (apply ends_after;
          [repeat first [apply random_below_halts | halting_step]
          | intros ? | intros; exact I]).
    eapply ends_weaken; [apply IH; lia|].
    intros [cs'| |] _; cbn; auto. lia.
  - intros e w [].
  - intros w [].
Qed.

(** The loop of lines 743-754. *)
Lemma scroll_up_stable : forall fuel cs,
  (cs <= 100 * Z.of_nat fuel)%Z ->
  forall fuel' w, fuel <= fuel' ->
    scroll_up env cfg fuel' cs w = scroll_up env cfg fuel cs w.
Proof.
  induction fuel as [|fuel IH]; intros cs Hleft fuel' w Hfuel.
  - destruct fuel'; cbn [scroll_up];
      (destruct (0 <? cs)%Z eqn:Hlt; [apply Z.ltb_lt in Hlt; lia | reflexivity]).
  - destruct fuel' as [|fuel']; [lia|]. cbn [scroll_up].
    destruct (0 <? cs)%Z; [|reflexivity].
    apply bind_agrees; [reflexivity|]. intros step w1 Hstep.
    apply randint_range in Hstep; [|lia].
    apply bind_agrees; [reflexivity|]. intros _ w2 _.
    apply bind_agrees; [reflexivity|]. intros _ w3 _.
    apply bind_agrees; [reflexivity|]. intros move w4 _.
    apply bind_agrees; [reflexivity|]. intros _ w5 _.
    apply IH; lia.
Qed.

Lemma scroll_up_halts : forall fuel cs,
  (cs <= 100 * Z.of_nat fuel)%Z ->
  ends_in comes_back (scroll_up env cfg fuel cs).
Proof.
  induction fuel as [|fuel IH]; intros cs Hleft; cbn [scroll_up];
    destruct (0 <? cs)%Z eqn:Hlt;
    try apply halts_ret.
  - apply Z.ltb_lt in Hlt. lia.
  - apply Z.ltb_lt in Hlt.
    apply (ends_bind_from (fun o w => match o with
                                      | Ret a => (100 <= a <= 300)%Z
                                      | _ => False
                                      end)).
    + intros w. destruct (randint env 100 300 w) as [o w1] eqn:Hrun.
      pose proof (returns_randint env 100 300 w) as [a Ha].
      rewrite Hrun in Ha. cbn in Ha. subst o. cbn.
      eapply randint_range; [|exact Hrun]; lia.
    + intros step w Hstep. revert w.
      change (ends_in comes_back
                (_ <- page_evaluate env ("window.scrollBy(0, -" ++ pretty step ++ ")") ;;
                 _human_delay env cfg (Some 100%Z) (Some 300%Z) ;;
                 move <- random_below env 30 ;;
                 (if move then
                    x <- randint env 100 500 ;;
                    y <- randint env 100 500 ;;
                    _ <- page_call env "mouse" (MouseMove x y) ;; ret tt
                  else ret tt) ;;
                 scroll_up env cfg fuel (Z.max 0 (cs - step)))).
      do 4 (apply halts_bind;
            [repeat first [apply random_below_halts | apply randint_halts | halting_step]
            | intros ?]).
      apply IH. lia.
    + intros e w [].
    + intros w [].
Qed.

(** Lines 724-754: the scrolling proper, for a page of height [ph]. *)
Lemma scroll_moves_settle ph :
  let moves fuel :=
    (_human_delay env cfg (Some 500%Z) (Some 1500%Z) ;;
     current_scroll <- scroll_down env cfg fuel ph 0 ;;
     _human_delay env cfg (Some 1000%Z) (Some 2000%Z) ;;
     scroll_up env cfg fuel current_scroll) in
  exists fuel,
    (forall fuel' w, fuel <= fuel' -> moves fuel' w = moves fuel w) /\
    ends_in comes_back (moves fuel).
Proof.
  cbv zeta. set (N := Z.to_nat (Z.max 0 ph + 400)).
  assert (HN : (ph + 400 <= 100 * Z.of_nat N)%Z) by (subst N; lia).
  pose proof (scroll_down_ends N ph 0 ltac:(lia)) as Hdown.
  exists N. split.
  - intros fuel' w Hfuel.
    apply bind_agrees; [reflexivity|]. intros _ w1 _.
    apply bind_agrees; [apply scroll_down_stable; lia|]. intros cs w2 Hcs.
    specialize (Hdown w1). rewrite Hcs in Hdown. cbn in Hdown.
    apply bind_agrees; [reflexivity|]. intros _ w3 _.
    apply scroll_up_stable; lia.
  - apply halts_bind; [apply halts_human_delay|]. intros _.
    apply (ends_bind_from _ _ _ _ Hdown).
    + intros cs w Hcs. revert w.
      change (ends_in comes_back
                (_human_delay env cfg (Some 1000%Z) (Some 2000%Z) ;;
                 scroll_up env cfg N cs)).
      apply halts_bind; [apply halts_human_delay|]. intros _.
      apply scroll_up_halts. lia.
    + discriminate.
    + intros w [].
Qed.

(** Lines 721-754, once both heights are known. *)
Lemma scroll_rest_settles (page_height viewport_height : PyVal) :
  let rest fuel :=
    (ph <- as_int page_height ;;
     vh <- as_int viewport_height ;;
     if (ph <=? vh)%Z then ret tt
     else
       _human_delay env cfg (Some 500%Z) (Some 1500%Z) ;;
       current_scroll <- scroll_down env cfg fuel ph 0 ;;
       _human_delay env cfg (Some 1000%Z) (Some 2000%Z) ;;
       scroll_up env cfg fuel current_scroll) in
  exists fuel,
    (forall fuel' w, fuel <= fuel' -> rest fuel' w = rest fuel w) /\
    ends_in comes_back (rest fuel).
Proof.
  cbv zeta.
  destruct page_height as [| | ph | | |];
    try (exists 0; split; [reflexivity | intros w; discriminate]).
  destruct viewport_height as [| | vh | | |];
    try (exists 0; split; [reflexivity | intros w; discriminate]).
  destruct (scroll_moves_settle ph) as (N & Hsame & Hback). cbv zeta in *.
  exists N. split.
  - intros fuel' w Hfuel.
    change ((if (ph <=? vh)%Z then ret tt
             else
               _human_delay env cfg (Some 500%Z) (Some 1500%Z) ;;
               current_scroll <- scroll_down env cfg fuel' ph 0 ;;
               _human_delay env cfg (Some 1000%Z) (Some 2000%Z) ;;
               scroll_up env cfg fuel' current_scroll) w =
            (if (ph <=? vh)%Z then ret tt
             else
               _human_delay env cfg (Some 500%Z) (Some 1500%Z) ;;
               current_scroll <- scroll_down env cfg N ph 0 ;;
               _human_delay env cfg (Some 1000%Z) (Some 2000%Z) ;;
               scroll_up env cfg N current_scroll) w).
    destruct (ph <=? vh)%Z; [reflexivity | now apply Hsame].
  - intros w.
    change (comes_back
              ((if (ph <=? vh)%Z then ret tt
                else
                  _human_delay env cfg (Some 500%Z) (Some 1500%Z) ;;
                  current_scroll <- scroll_down env cfg N ph 0 ;;
                  _human_delay env cfg (Some 1000%Z) (Some 2000%Z) ;;
                  scroll_up env cfg N current_scroll) w).1
              ((if (ph <=? vh)%Z then ret tt
                else
                  _human_delay env cfg (Some 500%Z) (Some 1500%Z) ;;
                  current_scroll <- scroll_down env cfg N ph 0 ;;
                  _human_delay env cfg (Some 1000%Z) (Some 2000%Z) ;;
                  scroll_up env cfg N current_scroll) w).2).
    destruct (ph <=? vh)%Z; [discriminate | apply Hback].
Qed.

(** The [try] block of _human_scroll needs only as many rounds as the
    height the driver reports asks for. *)
Lemma scroll_body_settles w :
  exists fuel,
    (forall fuel', fuel <= fuel' ->
       _human_scroll_body env cfg fuel' w = _human_scroll_body env cfg fuel w) /\
    (_human_scroll_body env cfg fuel w).1 <> Diverge.
Proof.
  unfold _human_scroll_body.
  destruct (page_evaluate env "document.body.scrollHeight" w) as [o1 w1] eqn:E1.
  destruct o1 as [v1|e|].
  - destruct (page_evaluate env "window.innerHeight" w1) as [o2 w2] eqn:E2.
    destruct o2 as [v2|e|].
    + destruct (scroll_rest_settles v1 v2) as (N & Hsame & Hback). cbv zeta in *.
      exists N. split.
      * intros fuel' Hfuel.
        apply bind_agrees; [reflexivity|]. intros a wa Ha.
        apply bind_agrees; [reflexivity|]. intros b wb Hb.
        rewrite E1 in Ha. injection Ha as <- <-.
        rewrite E2 in Hb. injection Hb as <- <-.
        now apply Hsame.
      * unfold bind at 1. rewrite E1. unfold bind at 1. rewrite E2. apply Hback.
    + exists 0. split.
      * intros fuel' _. apply bind_agrees; [reflexivity|]. intros a wa Ha.
        apply bind_agrees; [reflexivity|]. intros b wb Hb.
        rewrite E1 in Ha. injection Ha as <- <-. rewrite E2 in Hb. discriminate.
      * unfold bind at 1. rewrite E1. unfold bind at 1. rewrite E2. discriminate.
    + exists 0. split.
      * intros fuel' _. apply bind_agrees; [reflexivity|]. intros a wa Ha.
        apply bind_agrees; [reflexivity|]. intros b wb Hb.
        rewrite E1 in Ha. injection Ha as <- <-. rewrite E2 in Hb. discriminate.
      * pose proof (halts_page_call env "evaluate" (Evaluate "window.innerHeight") w1) as H.
        unfold page_evaluate in E2. rewrite E2 in H. now elim H.
  - exists 0. split.
    + intros fuel' _. apply bind_agrees; [reflexivity|]. intros a wa Ha.
      rewrite E1 in Ha. discriminate.
    + unfold bind at 1. rewrite E1. discriminate.
  - pose proof (halts_page_call env "evaluate" (Evaluate "document.body.scrollHeight") w) as H.
    unfold page_evaluate in E1. rewrite E1 in H. now elim H.
Qed.

(** X19. _human_scroll (lines 713-759) always comes to an end. Every round
    of its two loops moves the position by at least 100, so the height the
    driver reports bounds the rounds: from some number of rounds on,
    allowing more changes nothing, and the run ends with a result or an
    exception. *)
Theorem human_scroll_terminates w :
  exists fuel,
    (forall fuel', fuel <= fuel' ->
       _human_scroll env cfg fuel' w = _human_scroll env cfg fuel w) /\
    (_human_scroll env cfg fuel w).1 <> Diverge.
Proof.
  destruct (scroll_body_settles w) as (N & Hsame & Hback).
  exists N. split.
  - intros fuel' Hfuel. unfold _human_scroll, try_finally, try_except.
    now rewrite (Hsame fuel' Hfuel).
  - assert (H : ends_in comes_back
                  (_human_delay env cfg (Some 500%Z) (Some 1000%Z)))
      by apply halts_human_delay.
    unfold _human_scroll, try_finally, try_except.
    destruct (_human_scroll_body env cfg N w) as [[[]|e|] w1]; cbn [fst] in Hback.
    + specialize (H w1). unfold comes_back in H.
      destruct (_human_delay env cfg _ _ w1) as [[[]|e'|] w2]; cbn in *;
        congruence.
    + unfold bind at 1, log, modify. cbn [raise].
      match goal with |- context [_human_delay env cfg ?a ?b ?w] =>
        specialize (H w); unfold comes_back in H;
        destruct (_human_delay env cfg a b w) as [[[]|e'|] w2]
      end; cbn in *; congruence.
    + now elim Hback.
Qed.

End Scrolling.

(** A challenge that never resolves does not stop _handle_cloudflare: the
    four time-outs are swallowed and the function returns. *)
Example stuck_challenge_is_passed :
  let r := _handle_cloudflare stuck_challenge_env demo_cfg 90 open_world in
  r.1 = Ret tt /\
  calls_of (WaitForSelector "#challenge-running" (Some "hidden") 90000) (trace r.2) = 1 /\
  calls_of (WaitForSelector "#challenge-form" (Some "hidden") 90000) (trace r.2) = 1.
Proof. vm_compute. repeat split; reflexivity. Qed.

(** On a page that accepts every call the method of lines 182-189 types
    the whole text. *)
Example human_type_L182_on_a_quiet_page :
  let r := _human_type_L182 demo_env demo_cfg "#pw" "ab" open_world in
  r.1 = Ret tt /\
  calls_in (trace r.2) =
  [Click "#pw"; Fill "#pw" EmptyString; Type_ "#pw" "a"; Type_ "#pw" "b"].
Proof. vm_compute. split; reflexivity. Qed.

(** ** start_workflow, lines 334-471 *)

Section ClassWorkflowFacts.
Context (env : Env) (cfg : TLSConfig) (page_title : M PyVal).

Lemma wait_for_login_form_L345_halts :
  ends_in comes_back (wait_for_login_form_L345 env cfg).
Proof.
  intros w. unfold wait_for_login_form_L345. cbv zeta.
  destruct (login_form_loop_L345 env cfg 3 3 0 w) as [o w'] eqn:Hrun.
  now apply loop_bounded_L345 in Hrun as [Hback _]; [|lia].
Qed.

Lemma start_workflow_L334_try_halts email password center :
  ends_in comes_back page_title ->
  ends_in comes_back (start_workflow_L334_try env cfg page_title email password center).
Proof.
  intros Htitle. unfold start_workflow_L334_try, page_click, page_wait_for_load_state,
    page_evaluate.
  repeat first
    [ apply Htitle | apply human_type_halts | apply cloudflare_halts
    | apply goto_center_halts | apply wait_for_login_form_L345_halts
    | halting_step ].
Qed.

(** X20. start_workflow of lines 334-471 answers True on every run,
    provided the title query comes back: its [finally] block ends in
    [return True], which replaces the [return False] of the handler and
    everything else the [try] block did, so no failure of the workflow
    reaches the caller. *)
Theorem start_workflow_L334_always_answers_true email password center w :
  ends_in comes_back page_title ->
  (start_workflow_L334 env cfg page_title email password center w).1 = Ret true.
Proof.
  intros Htitle.
  assert (Hbody : ends_in comes_back
            (try_except (start_workflow_L334_try env cfg page_title email password center)
               (fun e => log "error" ("Failed to setup browser context: " ++ exn_msg e) ;;
                         ret false))).
  { apply halts_try_except; [now apply start_workflow_L334_try_halts | intros e; halting]. }
  specialize (Hbody w). unfold comes_back in Hbody.
  unfold start_workflow_L334, try_finally_return.
  destruct (try_except _ _ w) as [[b|e|] w1]; cbn [fst] in Hbody;
    [| |now elim Hbody];
    unfold bind; now rewrite human_delay_run.
Qed.

End ClassWorkflowFacts.

Lemma start_workflow_L334_always_answers_true_witness :
  (start_workflow_L334 broken_env demo_cfg (title_by_script broken_env)
     "a@x.com" "secret" "PAR" open_world).1 = Ret true.
Proof.
  apply (start_workflow_L334_always_answers_true broken_env demo_cfg
           (title_by_script broken_env) "a@x.com" "secret" "PAR" open_world).
  apply halts_page_call.
Defined.

(** With a driver that has lost its connection the workflow logs the
    failure and still answers True. *)
Example start_workflow_L334_offline :
  let r := start_workflow_L334 broken_env demo_cfg (title_by_script broken_env)
             "a@x.com" "secret" "PAR" open_world in
  r.1 = Ret true /\
  last (logs_in (trace r.2)) =
  Some ("error", "Failed to setup browser context: Failed to bypass Cloudflare protection").
Proof. vm_compute. split; reflexivity. Qed.
